(** * cs207project: deferred computations and the time series container

    A shallow embedding of [lazy.py] (class [LazyOperation]) and
    [timeseries.py] (class [TimeSeries]), followed by the properties of
    the two classes.

    Modelling choices.
    - Numbers (Python ints and floats, numpy scalars) are exact rationals
      [Q]; numeric equality ([==]) is [Qeq], not syntactic equality. The
      model is for numbers of ordinary size: the wrap-around of 64-bit
      integers, the [OverflowError] of an integer that does not fit in 64
      bits, and NaN and infinities are outside it.
    - The rounding of binary64 arithmetic is not in [Q]. Where a property
      depends on it (the two interpolation formulas), the loop body of
      [interpolate] is modelled a second time on binary64 numbers, in the
      module [b64].
    - A numpy array is a [list Q], read with stdpp's lookup; an index out
      of range raises [IndexError] as numpy does. The array of values is
      written by [__setitem__], so its [dtype] is kept with it: a number
      written to an [int64] array is truncated.
    - Python exceptions are the constructors of [exn]; a call that can
      raise returns a [result].
    - [LazyOperation] objects are mutable and reachable through several
      references, so they live in a store ([heap]) and [eval] threads the
      store, also when it raises.
    - Python bounds the depth of recursion; [eval] takes that bound as its
      first argument and raises [RecursionError] when it is used up. *)

From Stdlib Require Import QArith Qfield Lia Lqa.
From Stdlib Require Import Floats.PrimFloat.
From stdpp Require Import base option list gmap strings.

Set Default Proof Using "Type".

(** ** Exceptions and results *)

Inductive exn : Type :=
  | AssertionError
  | ValueError
  | IndexError
  | ZeroDivisionError
  | TypeError
  | RecursionError
  | AttributeError (attr : string).

(** The specification names the two errors of the container
    [ShapeMismatch] and [KeyNotFound]; the code raises them as a failed
    [assert] and as [ValueError]. *)
Definition ShapeMismatch : exn := AssertionError.
Definition KeyNotFound : exn := ValueError.

Inductive result (A : Type) : Type :=
  | Ok (a : A)
  | Raise (e : exn).
Arguments Ok {A} a.
Arguments Raise {A} e.

#[global] Instance result_ret : MRet result := λ A a, Ok a.
#[global] Instance result_bind : MBind result := λ A B k m,
  match m with
  | Ok a => k a
  | Raise e => Raise e
  end.

(** ** lazy.py *)

Definition loc : Type := nat.

(** Python values that can be passed to a deferred function: numbers,
    [None], strings, and references to objects of the store. *)
Inductive value : Type :=
  | VNum (q : Q)
  | VNone
  | VStr (s : string)
  | VRef (l : loc).

(** The type of the elements of a numpy array of numbers, and of a
    number in a Python list: a Python int or a numpy integer is [int64],
    a Python float or a numpy float is [float64]. *)
Inductive dtype : Type :=
  | int64
  | float64.

(** [class TimeSeries]: the two arrays [self._times] and [self._values],
    and the dtype of [self._values]. The dtype of [self._times] is not
    kept: that array is never written. *)
Record TimeSeries : Type := mkTimeSeries {
  _times : list Q;
  _values : list Q;
  _values_dtype : dtype
}.

(** A number with the type it has in Python. *)
Definition scalar : Type := dtype * Q.

(** What the caller passes as a sequence of numbers: a Python list, or a
    numpy array with its dtype. *)
Inductive array_like : Type :=
  | PyList (l : list scalar)
  | NdArray (dt : dtype) (a : list Q).

(** [len(x)] *)
Definition len (x : array_like) : nat :=
  match x with
  | PyList l => length l
  | NdArray _ a => length a
  end.

(** A Python callable, applied to positional and keyword arguments. *)
Definition callable : Type :=
  list value → list (string * value) → result value.

(** [class LazyOperation]: the attributes set by [__init__]. *)
Record LazyOperation : Type := mkLazyOperation {
  __func : callable;
  __args : list value;
  __kwargs : list (string * value)
}.

Inductive object : Type :=
  | OTimeSeries (ts : TimeSeries)
  | OLazyOperation (op : LazyOperation).

Abbreviation heap := (gmap loc object).

(** Computations over the store that may raise; the store is returned in
    both cases. *)
Definition M (A : Type) : Type := heap → result A * heap.

Definition ret {A} (a : A) : M A := λ h, (Ok a, h).
Definition raise {A} (e : exn) : M A := λ h, (Raise e, h).
Definition bind {A B} (m : M A) (k : A → M B) : M B := λ h,
  match m h with
  | (Ok a, h1) => k a h1
  | (Raise e, h1) => (Raise e, h1)
  end.
Definition lift {A} (r : result A) : M A := λ h, (r, h).

Notation "'do' x <- m ; k" := (bind m (λ x, k))
  (at level 10, x name, m at level 100, k at level 200).

(** [LazyOperation(func, *args, **kwargs)]: a new object of the store. *)
Definition new_LazyOperation (func : callable) (args : list value)
    (kwargs : list (string * value)) : heap → loc * heap := λ h,
  let l := fresh (dom h) in
  (l, <[l := OLazyOperation (mkLazyOperation func args kwargs)]> h).

(** [isinstance(arg, LazyOperation)], with the location when it holds. *)
Definition isinstance_LazyOperation (h : heap) (arg : value) : option loc :=
  match arg with
  | VRef l =>
      match h !! l with
      | Some (OLazyOperation _) => Some l
      | _ => None
      end
  | _ => None
  end.

(** The first loop of [eval], over [enumerate(self.__args)]: the
    arguments that are [LazyOperation]s are replaced in [arg_list] by what
    their [eval] returns, from left to right. [ev] is the recursive call. *)
Fixpoint eval_args (ev : loc → M value) (args : list value) : M (list value) :=
  match args with
  | [] => ret []
  | arg :: rest => λ h,
      match isinstance_LazyOperation h arg with
      | Some l =>
          (do v <- ev l; do arg_list <- eval_args ev rest; ret (v :: arg_list)) h
      | None =>
          (do arg_list <- eval_args ev rest; ret (arg :: arg_list)) h
      end
  end.

(** [self.__args = tuple(arg_list)] *)
Definition set_args (arg_list : list value) (op : LazyOperation) : LazyOperation :=
  mkLazyOperation (__func op) arg_list (__kwargs op).

Definition set_args_object (arg_list : list value) (o : object) : object :=
  match o with
  | OLazyOperation op => OLazyOperation (set_args arg_list op)
  | OTimeSeries ts => OTimeSeries ts
  end.

Definition store_args (self : loc) (arg_list : list value) : M unit := λ h,
  (Ok tt, alter (set_args_object arg_list) self h).

Definition get_LazyOperation (self : loc) : M LazyOperation := λ h,
  match h !! self with
  | Some (OLazyOperation op) => (Ok op, h)
  | _ => (Raise (AttributeError "eval"), h)
  end.

(** The second loop of [eval], over the keys of [self.__kwargs]. Its body
    reads [self.__kwarg], which inside the class is the attribute
    [_LazyOperation__kwarg]; [__init__] sets [_LazyOperation__kwargs] and
    nothing sets [_LazyOperation__kwarg], so the first iteration raises
    [AttributeError] and there is no loop when the mapping is empty. *)
Definition eval_kwargs (kwargs : list (string * value)) : M unit :=
  match kwargs with
  | [] => ret tt
  | _ :: _ => raise (AttributeError "_LazyOperation__kwarg")
  end.

(** [LazyOperation.eval], at recursion depth at most [depth]. *)
Fixpoint eval (depth : nat) (self : loc) : M value :=
  match depth with
  | O => raise RecursionError
  | S d =>
      do op <- get_LazyOperation self;
      do arg_list <- eval_args (eval d) (__args op);
      do _ <- store_args self arg_list;
      do op1 <- get_LazyOperation self;
      do _ <- eval_kwargs (__kwargs op1);
      do op2 <- get_LazyOperation self;
      lift (__func op2 (__args op2) (__kwargs op2))
  end.

(** ** The numeric collaborator (numpy) *)

Module np.

(** [np.zeros(n)], an array of dtype [float64] *)
Definition zeros (n : nat) : list Q := replicate n 0%Q.

(** The dtype that [np.array] gives to a list of numbers of these types:
    [int64] when there is a number and all are integers, [float64]
    otherwise (also for the empty list). *)
Definition result_type (kinds : list dtype) : dtype :=
  match kinds with
  | [] => float64
  | _ :: _ =>
      if forallb (λ k, match k with int64 => true | float64 => false end) kinds
      then int64 else float64
  end.

(** [np.array(x)]: the dtype and the numbers of the array. *)
Definition array_dtype (x : array_like) : dtype :=
  match x with
  | PyList l => result_type l.*1
  | NdArray dt _ => dt
  end.

Definition array (x : array_like) : list Q :=
  match x with
  | PyList l => l.*2
  | NdArray _ a => a
  end.

(** The number that is stored when [v] is written to an array of dtype
    [dt]: an [int64] array keeps the integer part (truncation to zero). *)
Definition astype (dt : dtype) (v : Q) : Q :=
  match dt with
  | int64 => inject_Z (Z.quot (Qnum v) (Zpos (Qden v)))
  | float64 => v
  end.

(** [a[i]] for [0 <= i] *)
Definition item (a : list Q) (i : nat) : result Q :=
  match a !! i with
  | Some x => Ok x
  | None => Raise IndexError
  end.

(** [a[-1]] *)
Definition item_last (a : list Q) : result Q :=
  match last a with
  | Some x => Ok x
  | None => Raise IndexError
  end.

(** [np.where(a == x)[0]]: the positions of the elements equal to [x],
    in increasing order. *)
Fixpoint where_from (i : nat) (a : list Q) (x : Q) : list nat :=
  match a with
  | [] => []
  | y :: a' =>
      if Qeq_bool y x then i :: where_from (S i) a' x
      else where_from (S i) a' x
  end.

Definition where_eq (a : list Q) (x : Q) : list nat := where_from 0 a x.

(** [a[index] = v] for an array [a] of dtype [dt] and an array of
    positions [index]: every position is checked, then [v], converted to
    [dt], is written at every position. *)
Definition put (dt : dtype) (a : list Q) (index : list nat) (v : Q)
    : result (list Q) :=
  if forallb (λ i, i <? length a)%nat index
  then Ok (foldl (λ acc i, <[i := astype dt v]> acc) a index)
  else Raise IndexError.

(** The binary search of [np.searchsorted(a, key, side='right')] on the
    half-open interval [lo, hi): the middle element is compared with
    the key, and the lower half is dropped when it is not greater. The
    interval shrinks at every step, so [hi - lo] steps are enough. *)
Fixpoint binsearch_right (steps : nat) (a : list Q) (key : Q)
    (lo hi : nat) : nat :=
  match steps with
  | O => lo
  | S n =>
      if (lo <? hi)%nat then
        let mid := (lo + (hi - lo) / 2)%nat in
        if Qle_bool (nth mid a 0%Q) key
        then binsearch_right n a key (S mid) hi
        else binsearch_right n a key lo mid
      else lo
  end.

Definition searchsorted_right (a : list Q) (key : Q) : nat :=
  binsearch_right (length a) a key 0 (length a).

End np.

(** ** timeseries.py *)

(** The test of [if values==None:] for a [values] that is not [None].
    A Python list is not equal to [None]. For a numpy array [==] compares
    every element with [None], and the truth value of the array of the
    comparisons is that of its element when it has one element, and a
    [ValueError] otherwise (numpy before 2.2 took the empty array for
    false, with a warning). *)
Definition eq_None (values : array_like) : result bool :=
  match values with
  | PyList _ => Ok false
  | NdArray _ a =>
      match a with
      | [_] => Ok false
      | _ => Raise ValueError
      end
  end.

(** [TimeSeries.__init__(self, times=[], values=None)]. [times] are the
    numbers of the sequence of times. *)
Definition __init__ (times : list Q) (values : option array_like)
    : result TimeSeries :=
  values ← match values with
           | None => Ok (NdArray float64 (np.zeros (length times)))
           | Some values =>
               is_None ← eq_None values;
               Ok (if is_None : bool
                   then NdArray float64 (np.zeros (length times))
                   else values)
           end;
  if (length times =? len values)%nat
  then Ok (mkTimeSeries times (np.array values) (np.array_dtype values))
  else Raise AssertionError.

Definition __len__ (self : TimeSeries) : nat := length (_times self).

(** [TimeSeries.__getitem__] *)
Definition __getitem__ (self : TimeSeries) (time : Q) : result Q :=
  let index := np.where_eq (_times self) time in
  match index with
  | [] => Raise ValueError
  | i0 :: _ => np.item (_values self) i0
  end.

(** [TimeSeries.__setitem__]: the outcome and the state of [self] after
    the call. *)
Definition __setitem__ (self : TimeSeries) (time value : Q)
    : result unit * TimeSeries :=
  let index := np.where_eq (_times self) time in
  if (length index =? 0)%nat then (Raise ValueError, self)
  else
    match np.put (_values_dtype self) (_values self) index value with
    | Ok values => (Ok tt, mkTimeSeries (_times self) values (_values_dtype self))
    | Raise e => (Raise e, self)
    end.

(** [TimeSeries.__contains__] *)
Definition __contains__ (self : TimeSeries) (time : Q) : bool :=
  existsb (λ x, Qeq_bool x time) (_times self).

(** [TimeSeries.items] *)
Definition items (self : TimeSeries) : list (Q * Q) :=
  zip (_times self) (_values self).

(** [==] on tuples of two numbers and on lists. *)
Definition item_eqb (p q : Q * Q) : bool :=
  Qeq_bool p.1 q.1 && Qeq_bool p.2 q.2.

Fixpoint list_eqb {A} (eqb : A → A → bool) (l k : list A) : bool :=
  match l, k with
  | [], [] => true
  | x :: l', y :: k' => eqb x y && list_eqb eqb l' k'
  | _, _ => false
  end.

(** [TimeSeries.__eq__] *)
Definition __eq__ (self ts : TimeSeries) : bool :=
  list_eqb item_eqb (items self) (items ts).

(** The function defined inside [TimeSeries.lazy]: [def func(self):
    return self]. It takes its one parameter by position or by name. *)
Definition func : callable := λ args kwargs,
  match args, kwargs with
  | [self], [] => Ok self
  | [], [(name, self)] => if String.eqb name "self" then Ok self else Raise TypeError
  | _, _ => Raise TypeError
  end.

(** [TimeSeries.lazy], for the container stored at [self]. *)
Definition lazy (self : loc) : heap → loc * heap :=
  new_LazyOperation func [VRef self] [].

(** The body of the loop of [TimeSeries.interpolate], for one query time:
    the value appended to [values], or the exception raised. *)
Definition interpolate_time (self : TimeSeries) (time : Q) : result Q :=
  let right_index := np.searchsorted_right (_times self) time in
  if (right_index =? __len__ self)%nat then np.item_last (_values self)
  else if (right_index =? 0)%nat then np.item (_values self) 0
  else
    let left_index := (right_index - 1)%nat in
    t_right ← np.item (_times self) right_index;
    t_left ← np.item (_times self) left_index;
    let time_delta := (t_right - t_left)%Q in
    v_right ← np.item (_values self) right_index;
    v_left ← np.item (_values self) left_index;
    let val_delta := (v_right - v_left)%Q in
    if Qeq_bool val_delta 0 then Raise ZeroDivisionError
    else
      let slope := (time_delta / val_delta)%Q in
      let step := ((time - t_left) / slope)%Q in
      Ok (v_left + step)%Q.

Fixpoint interpolate_loop (self : TimeSeries) (times : list Q)
    (values : list Q) : result (list Q) :=
  match times with
  | [] => Ok values
  | time :: rest =>
      v ← interpolate_time self time;
      interpolate_loop self rest (values ++ [v])
  end.

(** The type of the number that the loop body appends: an element of
    [self._values] in the two outer branches, a float otherwise. *)
Definition interpolate_dtype (self : TimeSeries) (time : Q) : dtype :=
  let right_index := np.searchsorted_right (_times self) time in
  if (right_index =? __len__ self)%nat then _values_dtype self
  else if (right_index =? 0)%nat then _values_dtype self
  else float64.

(** [TimeSeries.interpolate]: [values] is a Python list of the numbers
    that the loop appended. *)
Definition interpolate (self : TimeSeries) (times : list Q) : result TimeSeries :=
  values ← interpolate_loop self times [];
  __init__ times (Some (PyList (zip (interpolate_dtype self <$> times) values))).

(** The conventional linear interpolation of the specification:
    [values[left] + (t - times[left]) * value_delta / time_delta]. *)
Definition conventional_formula (t_left t_right v_left v_right t : Q) : Q :=
  (v_left + (t - t_left) * (v_right - v_left) / (t_right - t_left))%Q.

(** ** The loop body of [interpolate] in binary64

    The same loop body on arrays of dtype [float64] and a query time that
    is a float, with the arithmetic of the code: [float(...)] is then the
    identity, every operation is the IEEE 754 binary64 operation, the
    division [time_delta / val_delta] is the division of Python floats,
    which raises [ZeroDivisionError], and the division by [slope] is the
    division of numpy, which does not raise. Arrays of integers smaller
    than 2^53 and an integer query time give the same numbers, since the
    integer differences are exact and their conversion to float is
    exact. NaN is not considered. *)
Module b64.

Definition item (a : list float) (i : nat) : result float :=
  match a !! i with
  | Some x => Ok x
  | None => Raise IndexError
  end.

Definition item_last (a : list float) : result float :=
  match last a with
  | Some x => Ok x
  | None => Raise IndexError
  end.

Fixpoint binsearch_right (steps : nat) (a : list float) (key : float)
    (lo hi : nat) : nat :=
  match steps with
  | O => lo
  | S n =>
      if (lo <? hi)%nat then
        let mid := (lo + (hi - lo) / 2)%nat in
        if PrimFloat.leb (nth mid a 0%float) key
        then binsearch_right n a key (S mid) hi
        else binsearch_right n a key lo mid
      else lo
  end.

Definition searchsorted_right (a : list float) (key : float) : nat :=
  binsearch_right (length a) a key 0 (length a).

Definition interpolate_time (times values : list float) (time : float)
    : result float :=
  let right_index := searchsorted_right times time in
  if (right_index =? length times)%nat then item_last values
  else if (right_index =? 0)%nat then item values 0
  else
    let left_index := (right_index - 1)%nat in
    t_right ← item times right_index;
    t_left ← item times left_index;
    let time_delta := (t_right - t_left)%float in
    v_right ← item values right_index;
    v_left ← item values left_index;
    let val_delta := (v_right - v_left)%float in
    if PrimFloat.eqb val_delta 0%float then Raise ZeroDivisionError
    else
      let slope := (time_delta / val_delta)%float in
      let step := ((time - t_left) / slope)%float in
      Ok (v_left + step)%float.

(** [values[left] + (t - times[left]) * value_delta / time_delta] *)
Definition conventional_formula (t_left t_right v_left v_right t : float)
    : float :=
  (v_left + (t - t_left) * (v_right - v_left) / (t_right - t_left))%float.

Fixpoint sortedb (a : list float) : bool :=
  match a with
  | [] => true
  | x :: a' =>
      match a' with
      | [] => true
      | y :: _ => PrimFloat.leb x y && sortedb a'
      end
  end.

End b64.

(** The stored times are in ascending order. *)
Fixpoint sortedb (a : list Q) : bool :=
  match a with
  | [] => true
  | x :: a' =>
      match a' with
      | [] => true
      | y :: _ => Qle_bool x y && sortedb a'
      end
  end.

(** The invariant established by [__init__]. *)
Definition wf (self : TimeSeries) : Prop :=
  length (_times self) = length (_values self).


(** ** Generators

    [__iter__], [itertimes], [itervalues] and [iteritems] are generator
    functions. A generator is modelled by its suspended state and by the
    function that [next] runs, which reads the container as it is at the
    time of that [next]: the body of a generator does not start before
    the first [next]. *)
Inductive step (A : Type) : Type :=
  | Yield (a : A)
  | StopIteration.
Arguments Yield {A} a.
Arguments StopIteration {A}.

(** [for x in a: yield x] over an array [a] that can be written between
    two steps: the state is the position, and every step reads the array
    at that position. *)
Definition array_next (a : list Q) (i : nat) : step Q * nat :=
  match a !! i with
  | Some x => (Yield x, S i)
  | None => (StopIteration, i)
  end.

(** [TimeSeries.__iter__] and [TimeSeries.itervalues] iterate over the
    array [self._values], [TimeSeries.itertimes] over [self._times]. *)
Definition __iter___next (self : TimeSeries) : nat → step Q * nat :=
  array_next (_values self).
Definition itervalues_next (self : TimeSeries) : nat → step Q * nat :=
  array_next (_values self).
Definition itertimes_next (self : TimeSeries) : nat → step Q * nat :=
  array_next (_times self).

(** [TimeSeries.iteritems]: [for item in self.items: yield item]. The
    list [self.items] is built by the first [next] and kept in the state
    with the position. *)
Definition iteritems_next (self : TimeSeries)
    (state : option (list (Q * Q) * nat))
    : step (Q * Q) * option (list (Q * Q) * nat) :=
  let '(snapshot, i) := match state with
                        | None => (items self, 0)
                        | Some started => started
                        end in
  match snapshot !! i with
  | Some item => (Yield item, Some (snapshot, S i))
  | None => (StopIteration, Some (snapshot, i))
  end.

(** [n] calls of [next]: what they yield and the state they leave. *)
Fixpoint take_steps {S A} (next : S → step A * S) (n : nat) (s : S)
    : list A * S :=
  match n with
  | O => ([], s)
  | S n' =>
      match next s with
      | (Yield a, s') => let '(l, s'') := take_steps next n' s' in (a :: l, s'')
      | (StopIteration, s') => ([], s')
      end
  end.

(** [list(generator)]: [next] until [StopIteration], at most [n] times. *)
Definition drain {S A} (next : S → step A * S) (n : nat) (s : S) : list A :=
  (take_steps next n s).1.

(** ** What [eval] leaves in place

    [eval] only ever assigns [self.__args]: between two stores every
    object keeps its class, a [LazyOperation] keeps its function and its
    keyword arguments, and a [TimeSeries] keeps its arrays. *)
Definition same_kind (o o' : object) : Prop :=
  match o, o' with
  | OLazyOperation op, OLazyOperation op' =>
      __func op' = __func op ∧ __kwargs op' = __kwargs op
  | OTimeSeries ts, OTimeSeries ts' => ts' = ts
  | _, _ => False
  end.

Definition preserved (h h' : heap) : Prop :=
  ∀ l, match h !! l, h' !! l with
       | Some o, Some o' => same_kind o o'
       | None, None => True
       | _, _ => False
       end.

(** The first loop of [eval] as a relation: [resolved ev args h arg_list
    h'] when, from left to right and starting in the store [h], every
    argument that is not a node is kept and every argument that is a node
    is replaced by the value that [ev] returns for it in the store left
    by the arguments before it, [h'] being the store left by the last. *)
Inductive resolved (ev : loc → M value)
    : list value → heap → list value → heap → Prop :=
  | resolved_nil h : resolved ev [] h [] h
  | resolved_plain arg args h arg_list h' :
      isinstance_LazyOperation h arg = None →
      resolved ev args h arg_list h' →
      resolved ev (arg :: args) h (arg :: arg_list) h'
  | resolved_node arg l args h v h1 arg_list h' :
      isinstance_LazyOperation h arg = Some l →
      ev l h = (Ok v, h1) →
      resolved ev args h1 arg_list h' →
      resolved ev (arg :: args) h (v :: arg_list) h'.

(** What a positional argument stands for when it is a plain value or a
    node that has only plain arguments: the value itself, or the node's
    function applied to the node's arguments. Used to state how [eval]
    composes over one level of nesting. *)
Definition plain (h : heap) (arg : value) : Prop :=
  isinstance_LazyOperation h arg = None.

Definition leaf (h : heap) (arg : value) : Prop :=
  ∀ l, isinstance_LazyOperation h arg = Some l →
    ∃ op, h !! l = Some (OLazyOperation op) ∧ __kwargs op = [] ∧
          Forall (plain h) (__args op).

Definition leaf_value (h : heap) (arg : value) : result value :=
  match isinstance_LazyOperation h arg with
  | Some l =>
      match h !! l with
      | Some (OLazyOperation op) => __func op (__args op) []
      | _ => Ok arg
      end
  | None => Ok arg
  end.

(** * Properties *)

(** ** Results *)

Lemma bind_Ok {A B} (m : result A) (k : A → result B) (b : B) :
  m ≫= k = Ok b → ∃ a, m = Ok a ∧ k a = Ok b.
Proof. destruct m as [a|e]; simpl; [eauto | discriminate]. Qed.

(** ** The numeric collaborator *)

Section numpy.
Implicit Types (a : list Q) (x key : Q) (i j lo hi : nat).

Lemma item_Ok a i x : np.item a i = Ok x ↔ a !! i = Some x.
Proof.
  unfold np.item. destruct (a !! i); split; intros H; congruence.
Qed.

Lemma item_lt a i : i < length a → ∃ x, a !! i = Some x ∧ np.item a i = Ok x.
Proof.
  intros Hi. destruct (lookup_lt_is_Some_2 a i Hi) as [x Hx].
  exists x. split; [done | by apply item_Ok].
Qed.

(** [where_from i a x] lists, in increasing order, the positions (shifted
    by [i]) of the elements of [a] equal to [x]. *)
Lemma elem_of_where_from a x i j :
  j ∈ np.where_from i a x ↔
  i ≤ j ∧ ∃ y, a !! (j - i) = Some y ∧ (y == x)%Q.
Proof.
  revert i. induction a as [|y a IH]; intros i; simpl.
  - split; [intros H; by apply elem_of_nil in H | intros (_ & z & H & _); done].
  - assert (Hstep : j ∈ np.where_from (S i) a x ↔
                    i < j ∧ ∃ z, (y :: a) !! (j - i) = Some z ∧ (z == x)%Q).
    { rewrite IH. split.
      - intros (Hle & z & Hz & Heq). split; [lia|]. exists z. split; [|done].
        replace (j - i) with (S (j - S i)) by lia. done.
      - intros (Hlt & z & Hz & Heq). split; [lia|]. exists z. split; [|done].
        replace (j - i) with (S (j - S i)) in Hz by lia. done. }
    destruct (Qeq_bool y x) eqn:Hyx.
    + rewrite elem_of_cons, Hstep. apply Qeq_bool_iff in Hyx. split.
      * intros [-> | (Hlt & Hz)]; [|split; [lia | done]].
        split; [lia|]. exists y. by rewrite Nat.sub_diag.
      * intros (Hle & z & Hz & Heq).
        destruct (decide (j = i)) as [-> | Hne]; [by left | right].
        split; [lia | eauto].
    + rewrite Hstep. split.
      * intros (Hlt & Hz). split; [lia | done].
      * intros (Hle & z & Hz & Heq).
        destruct (decide (j = i)) as [-> | Hne]; [|split; [lia | eauto]].
        rewrite Nat.sub_diag in Hz. simpl in Hz. injection Hz as ->.
        apply Qeq_bool_iff in Heq. congruence.
Qed.

Lemma elem_of_where_eq a x j :
  j ∈ np.where_eq a x ↔ ∃ y, a !! j = Some y ∧ (y == x)%Q.
Proof.
  unfold np.where_eq. rewrite elem_of_where_from, Nat.sub_0_r.
  split; [intros (_ & H); done | intros H; split; [lia | done]].
Qed.

(** The head of [where_from] is the least matching position. *)
Lemma where_from_head a x i j rest :
  np.where_from i a x = j :: rest →
  ∀ k, k ∈ np.where_from i a x → j ≤ k.
Proof.
  revert i. induction a as [|y a IH]; intros i; simpl; [done|].
  destruct (Qeq_bool y x).
  - intros [= <- <-] k Hk. apply elem_of_cons in Hk as [-> | Hk]; [lia|].
    apply elem_of_where_from in Hk. lia.
  - eauto.
Qed.

Lemma where_eq_nil a x :
  np.where_eq a x = [] ↔ ∀ y, y ∈ a → ¬ (y == x)%Q.
Proof.
  split.
  - intros Hnil y Hy Heq. apply list_elem_of_lookup in Hy as [j Hj].
    assert (Hin : j ∈ np.where_eq a x) by (apply elem_of_where_eq; eauto).
    rewrite Hnil in Hin. by apply elem_of_nil in Hin.
  - intros Hno. destruct (np.where_eq a x) as [|j rest] eqn:Hw; [done|].
    assert (Hin : j ∈ np.where_eq a x) by (rewrite Hw; left).
    apply elem_of_where_eq in Hin as (y & Hy & Heq).
    exfalso. apply (Hno y); [|done]. apply list_elem_of_lookup. eauto.
Qed.

(** Writing [v] at the positions [index]. *)
Lemma foldl_insert_length (v : Q) index a :
  length (foldl (λ acc i, <[i := v]> acc) a index) = length a.
Proof.
  revert a. induction index as [|i index IH]; intros a; simpl; [done|].
  by rewrite IH, length_insert.
Qed.

Lemma foldl_insert_lookup_notin (v : Q) index a j :
  j ∉ index → foldl (λ acc i, <[i := v]> acc) a index !! j = a !! j.
Proof.
  revert a. induction index as [|i index IH]; intros a Hj; simpl; [done|].
  apply not_elem_of_cons in Hj as [Hne Hj].
  rewrite IH by done. by apply list_lookup_insert_ne.
Qed.

Lemma foldl_insert_lookup_in (v : Q) index a j :
  j ∈ index → j < length a →
  foldl (λ acc i, <[i := v]> acc) a index !! j = Some v.
Proof.
  revert a. induction index as [|i index IH]; intros a Hj Hlen; simpl.
  - by apply elem_of_nil in Hj.
  - destruct (decide (j ∈ index)) as [Hin | Hnotin].
    + apply IH; [done | by rewrite length_insert].
    + apply elem_of_cons in Hj as [-> | Hj]; [|done].
      rewrite foldl_insert_lookup_notin by done.
      by apply list_lookup_insert_eq.
Qed.

Lemma put_Ok (dt : dtype) a index (v : Q) :
  (∀ i, i ∈ index → i < length a) →
  np.put dt a index v =
    Ok (foldl (λ acc i, <[i := np.astype dt v]> acc) a index).
Proof.
  intros Hin. unfold np.put.
  assert (forallb (λ i, i <? length a) index = true) as ->; [|done].
  apply forallb_forall. intros i Hi. apply Nat.ltb_lt, Hin.
  by apply list_elem_of_In.
Qed.

Lemma put_inv (dt : dtype) a index (v : Q) a' :
  np.put dt a index v = Ok a' →
  a' = foldl (λ acc i, <[i := np.astype dt v]> acc) a index.
Proof. unfold np.put. destruct (forallb _ _); congruence. Qed.

End numpy.

(** ** Construction, lookup and mutation of the container *)

Section container.
Implicit Types (self : TimeSeries) (time value : Q).

Lemma where_eq_in_range self time i :
  wf self → i ∈ np.where_eq (_times self) time → i < length (_values self).
Proof.
  intros Hwf Hi. apply elem_of_where_eq in Hi as (y & Hy & _).
  rewrite <- Hwf. by eapply lookup_lt_Some.
Qed.

(** What [__getitem__] returns when some stored time matches: the value
    at the least matching position. *)
Lemma getitem_first self time i ti :
  wf self → _times self !! i = Some ti → (ti == time)%Q →
  ∃ k tk vk, k ≤ i ∧ _times self !! k = Some tk ∧ (tk == time)%Q ∧
    (∀ m tm, m < k → _times self !! m = Some tm → ¬ (tm == time)%Q) ∧
    _values self !! k = Some vk ∧ __getitem__ self time = Ok vk.
Proof.
  intros Hwf Hi Heq. unfold __getitem__.
  assert (Hin : i ∈ np.where_eq (_times self) time)
    by (apply elem_of_where_eq; eauto).
  destruct (np.where_eq (_times self) time) as [|k rest] eqn:Hw.
  { by apply elem_of_nil in Hin. }
  assert (Hk : k ∈ np.where_eq (_times self) time) by (rewrite Hw; left).
  pose proof (where_eq_in_range self time k Hwf Hk) as Hlt.
  apply elem_of_where_eq in Hk as (tk & Htk & Hktime).
  destruct (item_lt _ _ Hlt) as (vk & Hvk & Hitem).
  exists k, tk, vk. repeat split; try done.
  - apply (where_from_head _ _ _ _ _ Hw). by rewrite <- Hw in Hin.
  - intros m tm Hm Htm Hmtime.
    assert (Hmin : m ∈ np.where_eq (_times self) time)
      by (apply elem_of_where_eq; eauto).
    pose proof (where_from_head _ _ _ _ _ Hw m Hmin). lia.
Qed.

(** What [__setitem__] does when some stored time matches. *)
Lemma setitem_match self time value i ti :
  wf self → _times self !! i = Some ti → (ti == time)%Q →
  __setitem__ self time value =
    (Ok tt, mkTimeSeries (_times self)
              (foldl (λ acc j, <[j := np.astype (_values_dtype self) value]> acc)
                     (_values self) (np.where_eq (_times self) time))
              (_values_dtype self)).
Proof.
  intros Hwf Hi Heq. unfold __setitem__.
  assert (Hin : i ∈ np.where_eq (_times self) time)
    by (apply elem_of_where_eq; eauto).
  destruct (np.where_eq (_times self) time) as [|k rest] eqn:Hw.
  { by apply elem_of_nil in Hin. }
  simpl length. simpl Nat.eqb. cbv iota.
  rewrite put_Ok; [done|].
  intros j Hj. rewrite <- Hw in Hj. by eapply where_eq_in_range.
Qed.

Lemma setitem_no_match self time value :
  (∀ x, x ∈ _times self → ¬ (x == time)%Q) →
  __setitem__ self time value = (Raise KeyNotFound, self).
Proof.
  intros Hno. apply where_eq_nil in Hno. unfold __setitem__.
  by rewrite Hno.
Qed.

Lemma getitem_no_match self time :
  (∀ x, x ∈ _times self → ¬ (x == time)%Q) →
  __getitem__ self time = Raise KeyNotFound.
Proof.
  intros Hno. apply where_eq_nil in Hno. unfold __getitem__.
  by rewrite Hno.
Qed.

(** A stored time equal to the query exists or not. *)
Lemma match_dec self time :
  (∃ x, x ∈ _times self ∧ (x == time)%Q) ∨
  (∀ x, x ∈ _times self → ¬ (x == time)%Q).
Proof.
  destruct (np.where_eq (_times self) time) as [|k rest] eqn:Hw.
  - right. by apply where_eq_nil.
  - left. assert (Hk : k ∈ np.where_eq (_times self) time) by (rewrite Hw; left).
    apply elem_of_where_eq in Hk as (tk & Htk & Hktime).
    exists tk. split; [|done]. apply list_elem_of_lookup. eauto.
Qed.

(** C7. For Python lists construction does what the claim says: lists
    of different lengths raise [ShapeMismatch], lists of the same length
    give the container that stores both, the time at each position paired
    with the value at that position, the values with the dtype that
    [np.array] gives them. For values passed as a numpy array, as the
    tests of the repository pass them, the test [values==None] raises
    [ValueError] before the lengths are compared, whether they differ or
    not, when the array has two elements or more; an array of one element
    is treated as a list is. *)
Theorem init_shape (times : list Q) :
  (∀ l : list scalar, length times ≠ length l →
     __init__ times (Some (PyList l)) = Raise ShapeMismatch) ∧
  (∀ l : list scalar, length times = length l →
     ∃ ts, __init__ times (Some (PyList l)) = Ok ts ∧
       _times ts = times ∧ _values ts = l.*2 ∧
       _values_dtype ts = np.result_type l.*1 ∧ wf ts ∧
       length (items ts) = length times ∧
       ∀ i t v, times !! i = Some t → l.*2 !! i = Some v →
                items ts !! i = Some (t, v)) ∧
  (∀ (dt : dtype) (a : list Q), 2 ≤ length a →
     __init__ times (Some (NdArray dt a)) = Raise ValueError) ∧
  (∀ (dt : dtype) (x : Q),
     __init__ times (Some (NdArray dt [x])) =
       if (length times =? 1)%nat then Ok (mkTimeSeries times [x] dt)
       else Raise ShapeMismatch).
Proof.
  unfold __init__. split; [|split; [|split]].
  - intros l Hlen. simpl. apply Nat.eqb_neq in Hlen. by rewrite Hlen.
  - intros l Hlen. simpl. rewrite (proj2 (Nat.eqb_eq _ _) Hlen).
    eexists. split; [done|]. unfold wf, items. simpl.
    rewrite length_fmap. repeat split; try done.
    + rewrite length_zip_with, length_fmap. unfold scalar in *. lia.
    + intros i t v Ht Hv. rewrite lookup_zip_with, Ht. simpl. by rewrite Hv.
  - intros dt [|x [|y a]] Hlen; simpl in *; [lia | lia | done].
  - done.
Qed.

Lemma init_shape_witness :
  __init__ [0; 1; 2]%Q (Some (NdArray float64 [1 # 2; 3 # 4]%Q)) = Raise ValueError ∧
  __init__ [0; 1]%Q (Some (NdArray float64 [1 # 2; 3 # 4]%Q)) = Raise ValueError ∧
  __init__ [0; 1]%Q (Some (PyList [(int64, 7%Q)])) = Raise ShapeMismatch ∧
  ∃ ts, __init__ [0; 1]%Q (Some (PyList [(int64, 7%Q); (float64, 5 # 2)])) = Ok ts ∧
    _times ts = [0; 1]%Q ∧ _values ts = [7; 5 # 2]%Q ∧
    _values_dtype ts = float64.
Proof.
  split; [|split; [|split]].
  - apply (init_shape [0; 1; 2]%Q). simpl. lia.
  - apply (init_shape [0; 1]%Q). simpl. lia.
  - apply (init_shape [0; 1]%Q). simpl. lia.
  - destruct (proj1 (proj2 (init_shape [0; 1]%Q))
                [(int64, 7%Q); (float64, 5 # 2)] eq_refl)
      as (ts & Hts & Htimes & Hvalues & Hdtype & _).
    exists ts. done.
Defined.

(** C8. [Get] and [Set] raise [KeyNotFound] exactly when no stored time
    equals the query; when some stored time does, [Get] returns the value
    paired with a matching time and [Set] succeeds. *)
Theorem getitem_setitem_KeyNotFound self time value :
  wf self →
  ((∀ x, x ∈ _times self → ¬ (x == time)%Q) ↔
     __getitem__ self time = Raise KeyNotFound) ∧
  ((∀ x, x ∈ _times self → ¬ (x == time)%Q) ↔
     (__setitem__ self time value).1 = Raise KeyNotFound) ∧
  ((∃ x, x ∈ _times self ∧ (x == time)%Q) →
     (∃ i ti vi, _times self !! i = Some ti ∧ (ti == time)%Q ∧
        _values self !! i = Some vi ∧ __getitem__ self time = Ok vi) ∧
     (__setitem__ self time value).1 = Ok tt).
Proof.
  intros Hwf.
  assert (Hyes : (∃ x, x ∈ _times self ∧ (x == time)%Q) →
     (∃ i ti vi, _times self !! i = Some ti ∧ (ti == time)%Q ∧
        _values self !! i = Some vi ∧ __getitem__ self time = Ok vi) ∧
     (__setitem__ self time value).1 = Ok tt).
  { intros (x & Hx & Heq). apply list_elem_of_lookup in Hx as [i Hi]. split.
    - destruct (getitem_first self time i x Hwf Hi Heq)
        as (k & tk & vk & _ & Htk & Hktime & _ & Hvk & Hget).
      exists k, tk, vk. done.
    - by rewrite (setitem_match self time value i x). }
  split; [split | split; [split | exact Hyes]].
  - apply getitem_no_match.
  - intros Hraise. destruct (match_dec self time) as [Hex | Hno]; [|done].
    destruct (Hyes Hex) as [(i & ti & vi & _ & _ & _ & Hget) _]. congruence.
  - intros Hno. by rewrite setitem_no_match.
  - intros Hraise. destruct (match_dec self time) as [Hex | Hno]; [|done].
    destruct (Hyes Hex) as [_ Hset]. congruence.
Qed.

Lemma getitem_setitem_KeyNotFound_witness :
  let self := mkTimeSeries [0; 5; 10]%Q [1; 2; 3]%Q int64 in
  ((∀ x, x ∈ _times self → ¬ (x == 5)%Q) ↔
     __getitem__ self 5 = Raise KeyNotFound) ∧
  ((∀ x, x ∈ _times self → ¬ (x == 5)%Q) ↔
     (__setitem__ self 5 9).1 = Raise KeyNotFound) ∧
  ((∃ x, x ∈ _times self ∧ (x == 5)%Q) →
     (∃ i ti vi, _times self !! i = Some ti ∧ (ti == 5)%Q ∧
        _values self !! i = Some vi ∧ __getitem__ self 5 = Ok vi) ∧
     (__setitem__ self 5 9).1 = Ok tt).
Proof.
  apply (getitem_setitem_KeyNotFound (mkTimeSeries [0; 5; 10]%Q [1; 2; 3]%Q int64) 5 9).
  reflexivity.
Defined.

(** What an array keeps of a number: a float array keeps it, and an
    integer array keeps an integer. *)
Lemma astype_float64 (v : Q) : np.astype float64 v = v.
Proof. done. Qed.

Lemma astype_integer (dt : dtype) (v : Q) (z : Z) :
  (v == inject_Z z)%Q → (np.astype dt v == v)%Q.
Proof.
  intros Hv. destruct dt; simpl; [|reflexivity].
  destruct v as [n d]. unfold Qeq in *. simpl in *.
  rewrite Z.mul_1_r in *. subst n. by rewrite Z.quot_mul.
Qed.

(** C6 as stated fails: on the integer container made from times
    [0, 5, 0] and values [1, 2, 3], [Set(0, 2.7)] writes at both
    positions of the key 0, but what it writes there is 2, not 2.7, and
    [Get(0)] then returns 2. *)
Lemma setitem_all_counterexample :
  ∃ self self',
    __init__ [0; 5; 0]%Q
      (Some (PyList [(int64, 1%Q); (int64, 2%Q); (int64, 3%Q)])) = Ok self ∧
    __setitem__ self 0 (27 # 10) = (Ok tt, self') ∧
    _values self' = [2; 2; 2]%Q ∧
    ¬ (2 == 27 # 10)%Q ∧
    __getitem__ self' 0 = Ok 2%Q.
Proof.
  eexists _, _. split; [reflexivity|]. split; [reflexivity|].
  split; [reflexivity|]. split; [discriminate | reflexivity].
Qed.

(** C6, amended. When the query time is stored at more than one
    position, [Get] returns the value at the first of them and [Set]
    writes at every one of them the new value converted to the dtype of
    the values: the new value itself when the values are floats, a number
    equal to it when it is an integer, its integer part otherwise. *)
Theorem getitem_first_setitem_all self time value (i j : nat) (ti tj : Q) :
  wf self → i ≠ j →
  _times self !! i = Some ti → (ti == time)%Q →
  _times self !! j = Some tj → (tj == time)%Q →
  (∃ k tk vk, k ≤ i ∧ k ≤ j ∧ _times self !! k = Some tk ∧ (tk == time)%Q ∧
     (∀ m tm, m < k → _times self !! m = Some tm → ¬ (tm == time)%Q) ∧
     _values self !! k = Some vk ∧ __getitem__ self time = Ok vk) ∧
  (∃ self', __setitem__ self time value = (Ok tt, self') ∧
     _values self' !! i = Some (np.astype (_values_dtype self) value) ∧
     _values self' !! j = Some (np.astype (_values_dtype self) value) ∧
     (∀ m tm, _times self !! m = Some tm → (tm == time)%Q →
              _values self' !! m = Some (np.astype (_values_dtype self) value)) ∧
     (_values_dtype self = float64 →
      np.astype (_values_dtype self) value = value) ∧
     (∀ z : Z, (value == inject_Z z)%Q →
      (np.astype (_values_dtype self) value == value)%Q)).
Proof.
  intros Hwf Hij Hi Hieq Hj Hjeq. split.
  - destruct (getitem_first self time i ti Hwf Hi Hieq)
      as (k & tk & vk & Hki & Htk & Hktime & Hleast & Hvk & Hget).
    exists k, tk, vk. repeat split; try done.
    destruct (decide (k ≤ j)) as [|Hgt]; [done|].
    exfalso. apply (Hleast j tj); [lia | done | done].
  - rewrite (setitem_match self time value i ti) by done.
    eexists. split; [done|]. simpl.
    assert (Hall : ∀ m tm, _times self !! m = Some tm → (tm == time)%Q →
      foldl (λ acc j0, <[j0 := np.astype (_values_dtype self) value]> acc)
        (_values self) (np.where_eq (_times self) time) !! m
      = Some (np.astype (_values_dtype self) value)).
    { intros m tm Hm Hmeq.
      assert (Hin : m ∈ np.where_eq (_times self) time)
        by (apply elem_of_where_eq; eauto).
      apply foldl_insert_lookup_in; [done|]. by eapply where_eq_in_range. }
    split; [eauto|]. split; [eauto|]. split; [done|]. split.
    + by intros ->.
    + intros z Hz. by eapply astype_integer.
Qed.

Lemma getitem_first_setitem_all_witness :
  let self := mkTimeSeries [0; 5; 0]%Q [1; 2; 3]%Q int64 in
  (∃ k tk vk, k ≤ 0 ∧ k ≤ 2 ∧ _times self !! k = Some tk ∧ (tk == 0)%Q ∧
     (∀ m tm, m < k → _times self !! m = Some tm → ¬ (tm == 0)%Q) ∧
     _values self !! k = Some vk ∧ __getitem__ self 0 = Ok vk) ∧
  (∃ self', __setitem__ self 0 (27 # 10) = (Ok tt, self') ∧
     _values self' !! 0 = Some (np.astype int64 (27 # 10)) ∧
     _values self' !! 2 = Some (np.astype int64 (27 # 10)) ∧
     (∀ m tm, _times self !! m = Some tm → (tm == 0)%Q →
              _values self' !! m = Some (np.astype int64 (27 # 10))) ∧
     (int64 = float64 → np.astype int64 (27 # 10) = 27 # 10) ∧
     (∀ z : Z, (27 # 10 == inject_Z z)%Q →
      (np.astype int64 (27 # 10) == 27 # 10)%Q)).
Proof.
  apply (getitem_first_setitem_all (mkTimeSeries [0; 5; 0]%Q [1; 2; 3]%Q int64)
           0 (27 # 10) 0 2 0 0); try reflexivity.
  discriminate.
Defined.

(** C10. [Set] leaves the times as they are, leaves the value at every
    position whose time differs from the query as it is, and leaves the
    whole container as it is when no stored time equals the query. *)
Theorem setitem_frame self time value :
  _times (__setitem__ self time value).2 = _times self ∧
  (∀ m tm, _times self !! m = Some tm → ¬ (tm == time)%Q →
     _values (__setitem__ self time value).2 !! m = _values self !! m) ∧
  ((∀ x, x ∈ _times self → ¬ (x == time)%Q) →
     __setitem__ self time value = (Raise KeyNotFound, self)).
Proof.
  split; [|split].
  - unfold __setitem__. destruct (length _ =? 0); [done|].
    by destruct (np.put _ _ _ _).
  - intros m tm Hm Hne. unfold __setitem__.
    destruct (length _ =? 0); [done|].
    destruct (np.put _ _ _ _) as [values|e] eqn:Hput; [|done].
    apply put_inv in Hput as ->. simpl.
    apply foldl_insert_lookup_notin. intros Hin.
    apply elem_of_where_eq in Hin as (y & Hy & Heq). congruence.
  - apply setitem_no_match.
Qed.

Lemma setitem_frame_witness :
  let self := mkTimeSeries [0; 5; 0]%Q [1; 2; 3]%Q int64 in
  _values (__setitem__ self 0 9).2 !! 1 = _values self !! 1 ∧
  __setitem__ self 7 9 = (Raise KeyNotFound, self).
Proof.
  split.
  - apply (proj1 (proj2 (setitem_frame (mkTimeSeries [0; 5; 0]%Q [1; 2; 3]%Q int64) 0 9))
             1 5%Q); [reflexivity | discriminate].
  - apply (proj2 (proj2 (setitem_frame (mkTimeSeries [0; 5; 0]%Q [1; 2; 3]%Q int64) 7 9))).
    intros x Hx Heq.
    repeat (apply elem_of_cons in Hx as [-> | Hx]; [discriminate|]).
    by apply elem_of_nil in Hx.
Defined.

End container.

(** ** The right-biased binary search *)

Section searchsorted.
Implicit Types (a : list Q) (x key : Q) (i j lo hi : nat).

Lemma binsearch_right_S n a key lo hi :
  np.binsearch_right (S n) a key lo hi =
  if lo <? hi then
    if Qle_bool (nth (lo + (hi - lo) / 2) a 0%Q) key
    then np.binsearch_right n a key (S (lo + (hi - lo) / 2)) hi
    else np.binsearch_right n a key lo (lo + (hi - lo) / 2)
  else lo.
Proof. reflexivity. Qed.

(** What the search returns on any array, sorted or not: the element just
    before the insertion point is at most the key and the element at the
    insertion point is greater, because both were compared with the key. *)
Lemma binsearch_right_bounds steps a key lo hi :
  lo ≤ hi → hi ≤ length a → hi - lo ≤ steps →
  lo ≤ np.binsearch_right steps a key lo hi ≤ hi ∧
  ((lo = 0 ∨ ∃ x, a !! (lo - 1) = Some x ∧ (x <= key)%Q) →
   np.binsearch_right steps a key lo hi = 0 ∨
   ∃ x, a !! (np.binsearch_right steps a key lo hi - 1) = Some x ∧ (x <= key)%Q) ∧
  ((hi = length a ∨ ∃ x, a !! hi = Some x ∧ (key < x)%Q) →
   np.binsearch_right steps a key lo hi = length a ∨
   ∃ x, a !! (np.binsearch_right steps a key lo hi) = Some x ∧ (key < x)%Q).
Proof.
  revert lo hi. induction steps as [|n IH]; intros lo hi Hle Hhi Hsteps.
  { simpl. assert (lo = hi) as -> by lia. done. }
  rewrite binsearch_right_S.
  destruct (lo <? hi) eqn:Hlt.
  2:{ apply Nat.ltb_ge in Hlt. assert (lo = hi) as -> by lia. done. }
  apply Nat.ltb_lt in Hlt.
  pose proof (Nat.div_mod_eq (hi - lo) 2) as Hdiv.
  pose proof (Nat.mod_upper_bound (hi - lo) 2) as Hmod.
  set (mid := lo + (hi - lo) / 2) in *.
  assert (Hmid : lo ≤ mid < hi) by (unfold mid; lia).
  destruct (lookup_lt_is_Some_2 a mid) as [y Hy]; [lia|].
  rewrite (nth_lookup_Some a mid 0%Q y Hy).
  destruct (Qle_bool y key) eqn:Hcmp.
  - apply Qle_bool_iff in Hcmp.
    destruct (IH (S mid) hi) as (Hr & Hlow & Hhigh); [lia.. |].
    split; [lia|]. split; [|done].
    intros _. apply Hlow. right. exists y.
    by replace (S mid - 1) with mid by lia.
  - assert (key < y)%Q as Hgt.
    { apply Qnot_le_lt. intros Hyk. apply Qle_bool_iff in Hyk. congruence. }
    destruct (IH lo mid) as (Hr & Hlow & Hhigh); [lia.. |].
    split; [lia|]. split; [done|].
    intros _. apply Hhigh. right. eauto.
Qed.

Lemma searchsorted_right_bounds a key :
  np.searchsorted_right a key ≤ length a ∧
  (0 < np.searchsorted_right a key →
   ∃ x, a !! (np.searchsorted_right a key - 1) = Some x ∧ (x <= key)%Q) ∧
  (np.searchsorted_right a key < length a →
   ∃ x, a !! (np.searchsorted_right a key) = Some x ∧ (key < x)%Q).
Proof.
  unfold np.searchsorted_right.
  destruct (binsearch_right_bounds (length a) a key 0 (length a))
    as (Hr & Hlow & Hhigh); [lia.. |].
  split; [lia|]. split; intros Hpos.
  - destruct Hlow as [H0 | H]; [by left | lia | done].
  - destruct Hhigh as [H0 | H]; [by left | lia | done].
Qed.

(** Ascending order, position by position. *)
Lemma sortedb_lookup a i j x y :
  sortedb a = true → i ≤ j → a !! i = Some x → a !! j = Some y → (x <= y)%Q.
Proof.
  revert i j x y. induction a as [|z a IH]; intros i j x y Hs Hij Hi Hj; [done|].
  assert (Htail : sortedb a = true).
  { simpl in Hs. destruct a; [done|]. by apply andb_prop in Hs as [_ ?]. }
  assert (Hhead : ∀ k w, a !! k = Some w → (z <= w)%Q).
  { clear i j x y Hij Hi Hj. intros k w Hk.
    destruct a as [|z' a']; [done|].
    simpl in Hs. apply andb_prop in Hs as [Hzz' _].
    apply Qle_bool_iff in Hzz'.
    apply Qle_trans with z'; [done|].
    apply (IH 0 k z' w); [done | lia | done | done]. }
  destruct i as [|i], j as [|j]; simpl in *.
  - injection Hi as <-. injection Hj as <-. apply Qle_refl.
  - injection Hi as <-. eauto.
  - lia.
  - apply (IH i j x y); [done | lia | done | done].
Qed.

(** On a sorted array the insertion point separates the elements that are
    at most the key from those that are greater. *)
Lemma searchsorted_right_sorted a key i x :
  sortedb a = true → a !! i = Some x →
  (i < np.searchsorted_right a key ↔ (x <= key)%Q).
Proof.
  intros Hs Hi.
  destruct (searchsorted_right_bounds a key) as (Hr & Hlow & Hhigh).
  split.
  - intros Hlt. destruct Hlow as (y & Hy & Hyk); [lia|].
    apply Qle_trans with y; [|done].
    apply (sortedb_lookup a i (np.searchsorted_right a key - 1)); [done | lia | done | done].
  - intros Hxk. destruct (decide (i < np.searchsorted_right a key)); [done|].
    exfalso. pose proof (lookup_lt_Some _ _ _ Hi) as Hlen.
    destruct Hhigh as (y & Hy & Hky); [lia|].
    assert (y <= x)%Q as Hyx
      by (apply (sortedb_lookup a (np.searchsorted_right a key) i); [done | lia | done | done]).
    apply (Qlt_irrefl key). apply Qlt_le_trans with y; [done|].
    by apply Qle_trans with x.
Qed.

End searchsorted.

(** ** Interpolation *)

Section interpolation.
Implicit Types (self : TimeSeries) (time : Q) (times values : list Q).

(** The loop appends to [values] the value computed for every query time,
    in order, and stops at the first one that raises. *)
Lemma interpolate_loop_Ok self times values r :
  interpolate_loop self times values = Ok r ↔
  ∃ vs, r = values ++ vs ∧
    Forall2 (λ t v, interpolate_time self t = Ok v) times vs.
Proof.
  revert values r. induction times as [|t times IH]; intros values r; simpl.
  - split.
    + intros [= <-]. exists []. by rewrite app_nil_r.
    + intros (vs & -> & Hvs). apply Forall2_nil_inv_l in Hvs as ->.
      by rewrite app_nil_r.
  - split.
    + intros Hr. apply bind_Ok in Hr as (v & Hv & Hr).
      apply IH in Hr as (vs & -> & Hvs).
      exists (v :: vs). split; [by rewrite <- app_assoc | by constructor].
    + intros (vs & -> & Hvs).
      apply Forall2_cons_inv_l in Hvs as (v & vs' & Hv & Hvs & ->).
      rewrite Hv. simpl. apply IH. exists vs'.
      split; [by rewrite <- app_assoc | done].
Qed.

(** The container that [interpolate] builds from the query times and the
    list of the numbers computed. *)
Lemma init_PyList_zip (times values : list Q) (kinds : list dtype) :
  length kinds = length times → length values = length times →
  __init__ times (Some (PyList (zip kinds values))) =
    Ok (mkTimeSeries times values (np.result_type kinds)).
Proof.
  intros Hkinds Hvalues. unfold __init__. simpl.
  rewrite length_zip_with, Hkinds, Hvalues, Nat.min_id, Nat.eqb_refl.
  by rewrite fst_zip, snd_zip by lia.
Qed.

(** [interpolate] returns a container keyed by the query times, with the
    value of [interpolate_time] at every position. *)
Lemma interpolate_Ok self times r :
  interpolate self times = Ok r ↔
  _times r = times ∧
  Forall2 (λ t v, interpolate_time self t = Ok v) times (_values r) ∧
  _values_dtype r = np.result_type (interpolate_dtype self <$> times).
Proof.
  unfold interpolate. split.
  - intros Hr. apply bind_Ok in Hr as (values & Hloop & Hinit).
    apply interpolate_loop_Ok in Hloop as (vs & -> & Hvs). simpl in *.
    rewrite init_PyList_zip in Hinit
      by (rewrite ?length_fmap; by apply Forall2_length in Hvs).
    by injection Hinit as <-.
  - intros (Htimes & Hvs & Hdtype). destruct r as [times' values dt].
    simpl in *. subst times' dt.
    assert (Hloop : interpolate_loop self times [] = Ok values)
      by (apply interpolate_loop_Ok; eauto).
    rewrite Hloop. simpl.
    by rewrite init_PyList_zip
      by (rewrite ?length_fmap; by apply Forall2_length in Hvs).
Qed.

Lemma interpolate_singleton self time v :
  interpolate_time self time = Ok v →
  interpolate self [time] = Ok (mkTimeSeries [time] [v] (interpolate_dtype self time)).
Proof.
  intros Hv. apply interpolate_Ok. simpl. split; [done|].
  split; [by repeat constructor | by destruct (interpolate_dtype self time)].
Qed.

Lemma interpolate_dtype_right self time :
  np.searchsorted_right (_times self) time = __len__ self →
  interpolate_dtype self time = _values_dtype self.
Proof.
  intros Hr. unfold interpolate_dtype. by rewrite Hr, Nat.eqb_refl.
Qed.

Lemma interpolate_dtype_left self time :
  np.searchsorted_right (_times self) time = 0 →
  interpolate_dtype self time = _values_dtype self.
Proof.
  intros Hr. unfold interpolate_dtype. rewrite Hr.
  by destruct (0 =? __len__ self).
Qed.

(** The two branches of flat extrapolation. *)
Lemma interpolate_time_right self time :
  np.searchsorted_right (_times self) time = __len__ self →
  interpolate_time self time = np.item_last (_values self).
Proof.
  intros Hr. unfold interpolate_time. by rewrite Hr, Nat.eqb_refl.
Qed.

Lemma interpolate_time_left self time :
  _times self ≠ [] →
  np.searchsorted_right (_times self) time = 0 →
  interpolate_time self time = np.item (_values self) 0.
Proof.
  intros Hne Hr. unfold interpolate_time. rewrite Hr.
  assert ((0 =? __len__ self) = false) as ->; [|done].
  apply Nat.eqb_neq. unfold __len__. destruct (_times self); [done | simpl; lia].
Qed.

(** The interior branch: the value computed by the code. *)
Lemma interpolate_time_interior self time t_left t_right v_left v_right :
  0 < np.searchsorted_right (_times self) time < __len__ self →
  _times self !! (np.searchsorted_right (_times self) time - 1) = Some t_left →
  _times self !! np.searchsorted_right (_times self) time = Some t_right →
  _values self !! (np.searchsorted_right (_times self) time - 1) = Some v_left →
  _values self !! np.searchsorted_right (_times self) time = Some v_right →
  interpolate_time self time =
    if Qeq_bool (v_right - v_left) 0 then Raise ZeroDivisionError
    else Ok (v_left + (time - t_left) / ((t_right - t_left) / (v_right - v_left)))%Q.
Proof.
  intros Hr Htl Htr Hvl Hvr. unfold interpolate_time.
  assert ((np.searchsorted_right (_times self) time =? __len__ self) = false) as ->
    by (apply Nat.eqb_neq; lia).
  assert ((np.searchsorted_right (_times self) time =? 0) = false) as ->
    by (apply Nat.eqb_neq; lia).
  rewrite (proj2 (item_Ok _ _ _) Htr), (proj2 (item_Ok _ _ _) Htl),
    (proj2 (item_Ok _ _ _) Hvr), (proj2 (item_Ok _ _ _) Hvl).
  done.
Qed.

(** In the interior branch the query time lies in the half-open segment
    between the two stored times, so [time_delta] is positive. *)
Lemma interior_segment self time t_left t_right :
  _times self !! (np.searchsorted_right (_times self) time - 1) = Some t_left →
  _times self !! np.searchsorted_right (_times self) time = Some t_right →
  0 < np.searchsorted_right (_times self) time →
  (t_left <= time)%Q ∧ (time < t_right)%Q.
Proof.
  intros Htl Htr Hpos.
  destruct (searchsorted_right_bounds (_times self) time) as (_ & Hlow & Hhigh).
  destruct Hlow as (x & Hx & Hxk); [done|].
  destruct Hhigh as (y & Hy & Hky); [by eapply lookup_lt_Some|].
  split; congruence.
Qed.

End interpolation.

Section interpolation_claims.
Implicit Types (self : TimeSeries) (time : Q) (times values : list Q).

(** C3. On a non-empty container with sorted times, a query whose
    insertion point is the sample count (the query is at or beyond the
    last stored time) gets the last stored value, and a query whose
    insertion point is 0 (the query is before the first stored time) gets
    the first stored value. *)
Theorem interpolate_flat_extrapolation self time :
  wf self → _times self ≠ [] → sortedb (_times self) = true →
  (np.searchsorted_right (_times self) time = __len__ self →
     ∃ v, last (_values self) = Some v ∧
       interpolate_time self time = Ok v ∧
       interpolate self [time] = Ok (mkTimeSeries [time] [v] (_values_dtype self)) ∧
       ∀ times r i, interpolate self times = Ok r → times !! i = Some time →
                    _values r !! i = Some v) ∧
  (np.searchsorted_right (_times self) time = 0 →
     ∃ v, head (_values self) = Some v ∧
       interpolate_time self time = Ok v ∧
       interpolate self [time] = Ok (mkTimeSeries [time] [v] (_values_dtype self)) ∧
       ∀ times r i, interpolate self times = Ok r → times !! i = Some time →
                    _values r !! i = Some v) ∧
  (np.searchsorted_right (_times self) time = __len__ self ↔
     ∃ x, last (_times self) = Some x ∧ (x <= time)%Q) ∧
  (np.searchsorted_right (_times self) time = 0 ↔
     ∃ x, head (_times self) = Some x ∧ (time < x)%Q).
Proof.
  intros Hwf Hne Hsorted.
  assert (Hlist : ∀ v, interpolate_time self time = Ok v →
    ∀ times r i, interpolate self times = Ok r → times !! i = Some time →
                 _values r !! i = Some v).
  { intros v Hv times r i Hr Hi. apply interpolate_Ok in Hr as (_ & Hvs & _).
    destruct (Forall2_lookup_l _ _ _ _ _ Hvs Hi) as (w & Hw & Htw). congruence. }
  assert (Hvne : _values self ≠ []).
  { intros Hnil. apply Hne. apply length_zero_iff_nil.
    unfold wf in Hwf. by rewrite Hwf, Hnil. }
  destruct (searchsorted_right_bounds (_times self) time) as (Hle & _ & _).
  split; [|split; [|split]].
  - intros Hr. destruct (proj2 (last_is_Some (_values self)) Hvne) as [v Hv].
    assert (Hone : interpolate_time self time = Ok v).
    { rewrite interpolate_time_right by done. unfold np.item_last. by rewrite Hv. }
    exists v. split; [done|]. split; [done|].
    split; [|by apply Hlist].
    rewrite <- (interpolate_dtype_right self time Hr).
    by apply interpolate_singleton.
  - intros Hr. destruct (_values self) as [|v values] eqn:Hvalues; [done|].
    assert (Hone : interpolate_time self time = Ok v).
    { rewrite interpolate_time_left by done. by rewrite Hvalues. }
    exists v. split; [done|]. split; [done|].
    split; [|by apply Hlist].
    rewrite <- (interpolate_dtype_left self time Hr).
    by apply interpolate_singleton.
  - destruct (proj2 (last_is_Some (_times self)) Hne) as [x Hx].
    pose proof Hx as Hlookup. rewrite last_lookup in Hlookup.
    pose proof (searchsorted_right_sorted _ time _ _ Hsorted Hlookup) as Hiff.
    assert (0 < length (_times self)) by (destruct (_times self); [done | simpl; lia]).
    unfold __len__. split.
    + intros Hr. exists x. split; [done|]. apply Hiff. lia.
    + intros (y & Hy & Hyt). assert (y = x) as -> by congruence.
      apply Hiff in Hyt. lia.
  - destruct (_times self) as [|x times] eqn:Htimes; [done|].
    assert (Hlookup : (x :: times) !! 0 = Some x) by done.
    pose proof (searchsorted_right_sorted _ time _ _ Hsorted Hlookup) as Hiff.
    simpl. split.
    + intros Hr. exists x. split; [done|]. apply Qnot_le_lt. intros Hxt.
      apply Hiff in Hxt. lia.
    + intros (y & [= <-] & Hty).
      destruct (decide (np.searchsorted_right (x :: times) time = 0)) as [|Hnz]; [done|].
      exfalso. apply (Qlt_irrefl time). apply Qlt_le_trans with x; [done|].
      apply Hiff. lia.
Qed.

Lemma interpolate_flat_extrapolation_witness :
  let self := mkTimeSeries [0; 5; 10]%Q [1; 2; 3]%Q int64 in
  (∃ v, last (_values self) = Some v ∧
     interpolate_time self 100 = Ok v ∧
     interpolate self [100]%Q = Ok (mkTimeSeries [100]%Q [v] int64) ∧
     ∀ times r i, interpolate self times = Ok r → times !! i = Some 100%Q →
                  _values r !! i = Some v) ∧
  (∃ v, head (_values self) = Some v ∧
     interpolate_time self (-100) = Ok v ∧
     interpolate self [-100]%Q = Ok (mkTimeSeries [-100]%Q [v] int64) ∧
     ∀ times r i, interpolate self times = Ok r → times !! i = Some (-100)%Q →
                  _values r !! i = Some v).
Proof.
  split.
  - apply (interpolate_flat_extrapolation
             (mkTimeSeries [0; 5; 10]%Q [1; 2; 3]%Q int64) 100);
      try reflexivity. discriminate.
  - apply (interpolate_flat_extrapolation
             (mkTimeSeries [0; 5; 10]%Q [1; 2; 3]%Q int64) (-100));
      try reflexivity. discriminate.
Defined.

(** C2. The container built from times [0, 5, 10] and values [1, 2, 3],
    interpolated at [1], gives the container with time [1] and the single
    value 6/5 (written 1.2 in the test, which compares with [__eq__]). *)
Theorem interpolate_example :
  ∃ a r v,
    __init__ [0; 5; 10]%Q
      (Some (PyList [(int64, 1%Q); (int64, 2%Q); (int64, 3%Q)])) = Ok a ∧
    interpolate a [1]%Q = Ok r ∧
    _times r = [1]%Q ∧ _values r = [v] ∧ (v == 6 # 5)%Q ∧
    __eq__ r (mkTimeSeries [1]%Q [6 # 5]%Q float64) = true.
Proof.
  eexists _, _, _. split; [reflexivity|]. split; [reflexivity|].
  split; [reflexivity|]. split; [reflexivity|]. split; reflexivity.
Qed.

(** C1 as stated fails in its second part: for times [0, 5, 10], values
    [1, 2, 3] and the interior query time 1, [value_delta] is 1 and
    [time_delta] is 5, they are not zero and not equal, and the
    inverted-slope formula of the code gives the same number as the
    conventional formula, 1.2, in binary64 as in exact arithmetic. *)
Lemma inverted_slope_counterexample :
  let self := mkTimeSeries [0; 5; 10]%Q [1; 2; 3]%Q int64 in
  sortedb (_times self) = true ∧
  np.searchsorted_right (_times self) 1 = 1 ∧
  0 < 1 < __len__ self ∧
  ¬ (2 - 1 == 0)%Q ∧ ¬ (2 - 1 == 5 - 0)%Q ∧
  (∃ v, interpolate_time self 1 = Ok v ∧
        (v == conventional_formula 0 5 1 2 1)%Q) ∧
  b64.searchsorted_right [0; 5; 10]%float 1 = 1 ∧
  PrimFloat.eqb (2 - 1) (5 - 0) = false ∧
  b64.interpolate_time [0; 5; 10]%float [1; 2; 3]%float 1
    = Ok (b64.conventional_formula 0 5 1 2 1) ∧
  b64.conventional_formula 0 5 1 2 1 = (6 / 5)%float.
Proof.
  cbv zeta. split; [reflexivity|]. split; [reflexivity|].
  split; [split; apply Nat.ltb_lt; reflexivity|].
  split; [discriminate|]. split; [discriminate|].
  split; [eexists; split; reflexivity|].
  repeat split; reflexivity.
Qed.

(** C1, amended. For some sorted times and values and some interior
    query time whose segment has a [value_delta] that is not zero, the
    inverted-slope formula of the code and the conventional formula give
    different binary64 numbers: for times [0, 5], values [0, 3] and the
    query time 3 the code computes 3 / (5 / 3), which is
    1.7999999999999998, and the conventional formula 3 * 3 / 5, which is
    1.8. For other such inputs, with [value_delta] different from
    [time_delta], they give the same number. *)
Theorem inverted_slope_rounding :
  (∃ (times values : list float) (time t_left t_right v_left v_right v : float),
     b64.sortedb times = true ∧
     0 < b64.searchsorted_right times time < length times ∧
     times !! (b64.searchsorted_right times time - 1) = Some t_left ∧
     times !! b64.searchsorted_right times time = Some t_right ∧
     values !! (b64.searchsorted_right times time - 1) = Some v_left ∧
     values !! b64.searchsorted_right times time = Some v_right ∧
     PrimFloat.eqb (v_right - v_left) 0 = false ∧
     b64.interpolate_time times values time = Ok v ∧
     PrimFloat.eqb v
       (b64.conventional_formula t_left t_right v_left v_right time) = false ∧
     PrimFloat.ltb v
       (b64.conventional_formula t_left t_right v_left v_right time) = true) ∧
  (∃ (times values : list float) (time t_left t_right v_left v_right : float),
     b64.sortedb times = true ∧
     0 < b64.searchsorted_right times time < length times ∧
     times !! (b64.searchsorted_right times time - 1) = Some t_left ∧
     times !! b64.searchsorted_right times time = Some t_right ∧
     values !! (b64.searchsorted_right times time - 1) = Some v_left ∧
     values !! b64.searchsorted_right times time = Some v_right ∧
     PrimFloat.eqb (v_right - v_left) 0 = false ∧
     PrimFloat.eqb (v_right - v_left) (t_right - t_left) = false ∧
     b64.interpolate_time times values time
       = Ok (b64.conventional_formula t_left t_right v_left v_right time)).
Proof.
  split.
  - exists [0; 5]%float, [0; 3]%float, 3%float, 0%float, 5%float, 0%float,
      3%float, (3 / (5 / 3))%float.
    split; [reflexivity|]. split; [split; apply Nat.ltb_lt; reflexivity|].
    repeat split; reflexivity.
  - exists [0; 5; 10]%float, [1; 2; 3]%float, 1%float, 0%float, 5%float,
      1%float, 2%float.
    split; [reflexivity|]. split; [split; apply Nat.ltb_lt; reflexivity|].
    repeat split; reflexivity.
Qed.

(** In exact arithmetic the two formulas agree on every interior query
    time whose segment has a [value_delta] that is not zero: dividing by
    [time_delta / val_delta] is multiplying by [val_delta / time_delta].
    What differs in the code is the rounding. *)
Lemma inverted_slope_exact self time (t_left t_right v_left v_right : Q) :
  0 < np.searchsorted_right (_times self) time < __len__ self →
  _times self !! (np.searchsorted_right (_times self) time - 1) = Some t_left →
  _times self !! np.searchsorted_right (_times self) time = Some t_right →
  _values self !! (np.searchsorted_right (_times self) time - 1) = Some v_left →
  _values self !! np.searchsorted_right (_times self) time = Some v_right →
  ¬ (v_right - v_left == 0)%Q →
  ∃ v, interpolate_time self time = Ok v ∧
       (v == conventional_formula t_left t_right v_left v_right time)%Q.
Proof.
  intros Hr Htl Htr Hvl Hvr Hvd.
  rewrite (interpolate_time_interior self time t_left t_right v_left v_right)
    by done.
  destruct (Qeq_bool (v_right - v_left) 0) eqn:Hz.
  { apply Qeq_bool_iff in Hz. done. }
  eexists. split; [done|]. unfold conventional_formula.
  destruct (interior_segment self time t_left t_right Htl Htr) as [Hlo Hhi]; [lia|].
  assert (¬ (t_right - t_left == 0)%Q) as Htd.
  { intros Heq. apply (Qlt_irrefl time). apply Qlt_le_trans with t_right; [done|].
    apply Qle_trans with t_left; [|done].
    assert (t_right == t_left)%Q as -> by (rewrite <- (Qplus_0_l t_left), <- Heq; ring).
    apply Qle_refl. }
  field. split; done.
Qed.

(** On a flat segment ([value_delta] zero) the code divides by zero,
    where the conventional formula gives the value of the segment. *)
Lemma interpolate_time_flat_segment self time (t_left t_right v_left v_right : Q) :
  0 < np.searchsorted_right (_times self) time < __len__ self →
  _times self !! (np.searchsorted_right (_times self) time - 1) = Some t_left →
  _times self !! np.searchsorted_right (_times self) time = Some t_right →
  _values self !! (np.searchsorted_right (_times self) time - 1) = Some v_left →
  _values self !! np.searchsorted_right (_times self) time = Some v_right →
  (v_right - v_left == 0)%Q →
  interpolate_time self time = Raise ZeroDivisionError ∧
  (conventional_formula t_left t_right v_left v_right time == v_left)%Q.
Proof.
  intros Hr Htl Htr Hvl Hvr Hvd.
  rewrite (interpolate_time_interior self time t_left t_right v_left v_right)
    by done.
  rewrite (proj2 (Qeq_bool_iff _ _) Hvd). split; [done|].
  unfold conventional_formula. unfold Qdiv. rewrite Hvd. ring.
Qed.

End interpolation_claims.

(** ** Deferred computations *)

Section lazy_operation.
Implicit Types (h : heap) (self l : loc) (op : LazyOperation)
  (arg : value) (args arg_list : list value).

Lemma same_kind_refl (o : object) : same_kind o o.
Proof. by destruct o. Qed.

Lemma same_kind_trans (o1 o2 o3 : object) :
  same_kind o1 o2 → same_kind o2 o3 → same_kind o1 o3.
Proof.
  destruct o1, o2, o3; simpl; try done.
  - congruence.
  - intros [-> ->] [-> ->]. done.
Qed.

Lemma preserved_refl h : preserved h h.
Proof. intros l. destruct (h !! l); [apply same_kind_refl | done]. Qed.

Lemma preserved_trans h1 h2 h3 :
  preserved h1 h2 → preserved h2 h3 → preserved h1 h3.
Proof.
  intros H12 H23 l. specialize (H12 l). specialize (H23 l).
  destruct (h1 !! l), (h2 !! l), (h3 !! l); try done.
  by eapply same_kind_trans.
Qed.

Lemma preserved_LazyOperation h h' l op :
  preserved h h' → h !! l = Some (OLazyOperation op) →
  ∃ op', h' !! l = Some (OLazyOperation op') ∧
         __func op' = __func op ∧ __kwargs op' = __kwargs op.
Proof.
  intros Hp Hl. specialize (Hp l). rewrite Hl in Hp.
  destruct (h' !! l) as [[ts|op']|]; try done. eauto.
Qed.

Lemma preserved_TimeSeries h h' l ts :
  preserved h h' → h !! l = Some (OTimeSeries ts) →
  h' !! l = Some (OTimeSeries ts).
Proof.
  intros Hp Hl. specialize (Hp l). rewrite Hl in Hp.
  destruct (h' !! l) as [[ts'|op']|]; try done. simpl in Hp. by subst.
Qed.

Lemma preserved_isinstance h h' arg :
  preserved h h' →
  isinstance_LazyOperation h' arg = isinstance_LazyOperation h arg.
Proof.
  intros Hp. destruct arg as [q| |s|l]; try done. simpl.
  specialize (Hp l).
  destruct (h !! l) as [[ts|op]|], (h' !! l) as [[ts'|op']|]; done.
Qed.

Lemma preserved_store_args h self arg_list :
  preserved h (store_args self arg_list h).2.
Proof.
  intros l. unfold store_args. simpl.
  destruct (decide (self = l)) as [->|Hne].
  - rewrite lookup_alter_eq. destruct (h !! l) as [[ts|op]|]; done.
  - rewrite lookup_alter_ne by done. destruct (h !! l); [apply same_kind_refl | done].
Qed.

(** One step of [eval], with the store written out. *)
Lemma eval_S depth self h :
  eval (S depth) self h =
  match h !! self with
  | Some (OLazyOperation op) =>
      match eval_args (eval depth) (__args op) h with
      | (Ok arg_list, h1) =>
          match alter (set_args_object arg_list) self h1 !! self with
          | Some (OLazyOperation op1) =>
              match __kwargs op1 with
              | [] => (__func op1 (__args op1) [],
                       alter (set_args_object arg_list) self h1)
              | _ :: _ => (Raise (AttributeError "_LazyOperation__kwarg"),
                           alter (set_args_object arg_list) self h1)
              end
          | _ => (Raise (AttributeError "eval"),
                  alter (set_args_object arg_list) self h1)
          end
      | (Raise e, h1) => (Raise e, h1)
      end
  | _ => (Raise (AttributeError "eval"), h)
  end.
Proof.
  simpl. unfold bind at 1. unfold get_LazyOperation at 1.
  destruct (h !! self) as [[ts|op]|]; try done.
  unfold bind at 1.
  destruct (eval_args (eval depth) (__args op) h) as [[arg_list|e] h1]; [|done].
  unfold bind at 1. unfold store_args. unfold bind at 1.
  unfold get_LazyOperation at 1.
  destruct (alter (set_args_object arg_list) self h1 !! self)
    as [[ts|op1]|] eqn:Hself; try done.
  unfold bind at 1, eval_kwargs.
  destruct (__kwargs op1) as [|kv kwargs] eqn:Hkw; [|done].
  unfold ret, bind, get_LazyOperation, lift. rewrite Hself.
  by rewrite Hkw.
Qed.

Lemma eval_args_preserved (ev : loc → M value) args h :
  (∀ l h0, preserved h0 (ev l h0).2) →
  preserved h (eval_args ev args h).2.
Proof.
  intros Hev. revert h. induction args as [|arg rest IH]; intros h; simpl.
  { apply preserved_refl. }
  destruct (isinstance_LazyOperation h arg) as [l|].
  - unfold bind at 1. pose proof (Hev l h) as Hl.
    destruct (ev l h) as [[v|e] h1]; [|done]. simpl in Hl.
    unfold bind. pose proof (IH h1) as Hrest.
    destruct (eval_args ev rest h1) as [[arg_list|e] h2]; simpl in *;
      by eapply preserved_trans.
  - unfold bind. pose proof (IH h) as Hrest.
    by destruct (eval_args ev rest h) as [[arg_list|e] h2].
Qed.

Lemma eval_preserved depth self h : preserved h (eval depth self h).2.
Proof.
  revert self h. induction depth as [|d IH]; intros self h.
  { apply preserved_refl. }
  rewrite eval_S. destruct (h !! self) as [[ts|op]|]; try apply preserved_refl.
  pose proof (eval_args_preserved (eval d) (__args op) h IH) as Hargs.
  destruct (eval_args (eval d) (__args op) h) as [[arg_list|e] h1];
    simpl in Hargs; [|done].
  assert (Hstore : preserved h (alter (set_args_object arg_list) self h1)).
  { eapply preserved_trans; [done|]. apply (preserved_store_args h1 self arg_list). }
  destruct (alter (set_args_object arg_list) self h1 !! self) as [[ts|op1]|];
    try done.
  by destruct (__kwargs op1).
Qed.

(** The first loop keeps the number of arguments, keeps the arguments
    that are not [LazyOperation]s, and does nothing when none is. *)
Lemma eval_args_length (ev : loc → M value) args h arg_list h' :
  eval_args ev args h = (Ok arg_list, h') → length arg_list = length args.
Proof.
  revert h arg_list. induction args as [|arg rest IH]; intros h arg_list; simpl.
  { by intros [= <- <-]. }
  destruct (isinstance_LazyOperation h arg) as [l|]; unfold bind at 1.
  - destruct (ev l h) as [[v|e] h1]; [|done]. unfold bind.
    destruct (eval_args ev rest h1) as [[vs|e] h2] eqn:Hrest; [|done].
    intros [= <- <-]. simpl. f_equal. by eapply IH.
  - destruct (eval_args ev rest h) as [[vs|e] h2] eqn:Hrest; [|done].
    intros [= <- <-]. simpl. f_equal. by eapply IH.
Qed.

Lemma eval_args_plain (ev : loc → M value) args h arg_list h' i arg :
  (∀ l h0, preserved h0 (ev l h0).2) →
  eval_args ev args h = (Ok arg_list, h') →
  args !! i = Some arg → isinstance_LazyOperation h arg = None →
  arg_list !! i = Some arg.
Proof.
  intros Hev. revert h arg_list i.
  induction args as [|a rest IH]; intros h arg_list i; simpl; [done|].
  destruct (isinstance_LazyOperation h a) as [l|] eqn:Ha; unfold bind at 1.
  - pose proof (Hev l h) as Hl.
    destruct (ev l h) as [[v|e] h1]; [|done]. simpl in Hl. unfold bind.
    destruct (eval_args ev rest h1) as [[vs|e] h2] eqn:Hrest; [|done].
    intros [= <- <-] Hi Hplain. destruct i as [|i]; simpl in *.
    + injection Hi as ->. congruence.
    + eapply IH; [done | done |]. by rewrite (preserved_isinstance h h1).
  - destruct (eval_args ev rest h) as [[vs|e] h2] eqn:Hrest; [|done].
    intros [= <- <-] Hi Hplain. destruct i as [|i]; simpl in *; [done|].
    by eapply IH.
Qed.

Lemma eval_args_cons (ev : loc → M value) arg args h :
  eval_args ev (arg :: args) h =
  match isinstance_LazyOperation h arg with
  | Some l =>
      match ev l h with
      | (Ok v, h1) =>
          match eval_args ev args h1 with
          | (Ok arg_list, h2) => (Ok (v :: arg_list), h2)
          | (Raise e, h2) => (Raise e, h2)
          end
      | (Raise e, h1) => (Raise e, h1)
      end
  | None =>
      match eval_args ev args h with
      | (Ok arg_list, h2) => (Ok (arg :: arg_list), h2)
      | (Raise e, h2) => (Raise e, h2)
      end
  end.
Proof. reflexivity. Qed.

(** The first loop computes what [resolved] describes. *)
Lemma eval_args_resolved (ev : loc → M value) args h arg_list h' :
  eval_args ev args h = (Ok arg_list, h') ↔ resolved ev args h arg_list h'.
Proof.
  split.
  - revert h arg_list h'.
    induction args as [|arg rest IH]; intros h arg_list h'.
    { intros [= <- <-]. constructor. }
    rewrite eval_args_cons.
    destruct (isinstance_LazyOperation h arg) as [l|] eqn:Harg.
    + destruct (ev l h) as [[v|e] h1] eqn:Hl; [|done].
      destruct (eval_args ev rest h1) as [[vs|e] h2] eqn:Hrest; [|done].
      intros [= <- <-]. eapply resolved_node; eauto.
    + destruct (eval_args ev rest h) as [[vs|e] h2] eqn:Hrest; [|done].
      intros [= <- <-]. eapply resolved_plain; eauto.
  - induction 1 as [h0|arg rest h0 vs h2 Harg _ IH
                      |arg l rest h0 v h1 vs h2 Harg Hl _ IH].
    + done.
    + by rewrite eval_args_cons, Harg, IH.
    + by rewrite eval_args_cons, Harg, Hl, IH.
Qed.

(** Every argument that is a node is replaced by what its evaluation
    returns, in a store that differs from the first one only by stored
    positional arguments. *)
Lemma resolved_nodes (ev : loc → M value) args h arg_list h' :
  (∀ l h0, preserved h0 (ev l h0).2) →
  resolved ev args h arg_list h' →
  ∀ i arg l, args !! i = Some arg → isinstance_LazyOperation h arg = Some l →
    ∃ h_i h_i' v, preserved h h_i ∧ ev l h_i = (Ok v, h_i') ∧
                  arg_list !! i = Some v.
Proof.
  intros Hev.
  induction 1 as [h0|arg0 rest h0 vs h2 Harg0 _ IH
                    |arg0 l0 rest h0 v0 h1 vs h2 Harg0 Hl0 _ IH];
    intros i arg l Hi Harg.
  - done.
  - destruct i as [|i]; simpl in Hi.
    + injection Hi as ->. congruence.
    + eauto.
  - destruct i as [|i]; simpl in Hi.
    + injection Hi as ->. assert (l0 = l) as -> by congruence.
      exists h0, h1, v0. split; [apply preserved_refl | done].
    + assert (Hp : preserved h0 h1).
      { pose proof (Hev l0 h0) as Hp. by rewrite Hl0 in Hp. }
      destruct (IH i arg l Hi) as (h_i & h_i' & v & Hpi & Hvi & Hlookup).
      { by rewrite (preserved_isinstance h0 h1). }
      exists h_i, h_i', v. split; [by eapply preserved_trans | done].
Qed.

Lemma eval_args_no_LazyOperation (ev : loc → M value) args h :
  Forall (λ arg, isinstance_LazyOperation h arg = None) args →
  eval_args ev args h = (Ok args, h).
Proof.
  induction 1 as [|arg rest Harg _ IH]; simpl; [done|].
  rewrite Harg. unfold bind. by rewrite IH.
Qed.

End lazy_operation.

Section lazy_operation_claims.
Implicit Types (h : heap) (self l : loc) (op : LazyOperation)
  (arg : value) (args arg_list : list value).

(** What [eval] returns once the positional arguments are resolved: the
    stored keyword arguments decide between the call of the function and
    the [AttributeError]. *)
Lemma eval_resolved depth self h op arg_list h1 :
  h !! self = Some (OLazyOperation op) →
  eval_args (eval depth) (__args op) h = (Ok arg_list, h1) →
  alter (set_args_object arg_list) self h1 !! self =
    Some (OLazyOperation (mkLazyOperation (__func op) arg_list (__kwargs op))) ∧
  eval (S depth) self h =
    (match __kwargs op with
     | [] => __func op arg_list []
     | _ :: _ => Raise (AttributeError "_LazyOperation__kwarg")
     end, alter (set_args_object arg_list) self h1).
Proof.
  intros Hself Hargs.
  pose proof (eval_args_preserved (eval depth) (__args op) h
                (eval_preserved depth)) as Hp.
  rewrite Hargs in Hp. simpl in Hp.
  destruct (preserved_LazyOperation h h1 self op Hp Hself)
    as (op1 & Hop1 & Hfunc & Hkw).
  assert (Hstored : alter (set_args_object arg_list) self h1 !! self =
    Some (OLazyOperation (mkLazyOperation (__func op) arg_list (__kwargs op)))).
  { rewrite lookup_alter_eq, Hop1. simpl. unfold set_args. by rewrite Hfunc, Hkw. }
  split; [done|].
  rewrite eval_S, Hself, Hargs, Hstored. simpl. by destruct (__kwargs op).
Qed.

(** C4 fails on the code for every node that has keyword arguments:
    [eval] never returns a result for it, at any depth, and when no
    positional argument is a node it raises the [AttributeError] of the
    attribute [_LazyOperation__kwarg]. *)
Theorem eval_kwargs_AttributeError depth self h op :
  h !! self = Some (OLazyOperation op) → __kwargs op ≠ [] →
  (∀ v, (eval depth self h).1 ≠ Ok v) ∧
  (Forall (λ arg, isinstance_LazyOperation h arg = None) (__args op) →
   eval (S depth) self h = (Raise (AttributeError "_LazyOperation__kwarg"), h)).
Proof.
  intros Hself Hkw. split.
  - intros v. destruct depth as [|d]; [done|].
    destruct (eval_args (eval d) (__args op) h) as [[arg_list|e] h1] eqn:Hargs.
    + destruct (eval_resolved d self h op arg_list h1 Hself Hargs) as [_ ->].
      simpl. by destruct (__kwargs op).
    + by rewrite eval_S, Hself, Hargs.
  - intros Hplain.
    pose proof (eval_args_no_LazyOperation (eval depth) _ _ Hplain) as Hargs.
    destruct (eval_resolved depth self h op _ h Hself Hargs) as [_ ->].
    rewrite alter_id.
    + by destruct (__kwargs op).
    + intros o Ho. rewrite Hself in Ho. injection Ho as <-. by destruct op.
Qed.

Lemma eval_kwargs_AttributeError_witness :
  let f : callable := λ _ _, Ok VNone in
  let h : heap :=
    {[ 0 := OLazyOperation (mkLazyOperation f [VNum 1] [("k"%string, VNum 2)]) ]} in
  (∀ v, (eval 1 0 h).1 ≠ Ok v) ∧
  (eval 1 0 h).1 = Raise (AttributeError "_LazyOperation__kwarg").
Proof.
  intros f h.
  pose proof (eval_kwargs_AttributeError 1 0 h
    (mkLazyOperation f [VNum 1] [("k"%string, VNum 2)]) eq_refl
    ltac:(discriminate)) as [Hnever _].
  pose proof (eval_kwargs_AttributeError 0 0 h
    (mkLazyOperation f [VNum 1] [("k"%string, VNum 2)]) eq_refl
    ltac:(discriminate)) as [_ Hraise].
  split; [exact Hnever|].
  rewrite Hraise; [reflexivity|]. repeat constructor.
Defined.

(** C5 as stated fails: after [eval] of a node whose argument is a node,
    the stored argument is the number the inner node returned, not the
    inner node. A second [eval] then succeeds at depth 1, where the first
    one needs depth 2: the inner node is not evaluated again. *)
Lemma eval_overwrites_args_counterexample :
  let inner := mkLazyOperation (λ _ _, Ok (VNum 7)) [] [] in
  let outer := mkLazyOperation func [VRef 1] [] in
  let h : heap :=
    <[0 := OLazyOperation outer]> {[ 1 := OLazyOperation inner ]} in
  (eval 2 0 h).1 = Ok (VNum 7) ∧
  (∃ op', (eval 2 0 h).2 !! 0 = Some (OLazyOperation op') ∧
     __args op' = [VNum 7] ∧ __args op' ≠ __args outer) ∧
  (eval 1 0 h).1 = Raise RecursionError ∧
  (eval 1 0 (eval 2 0 h).2).1 = Ok (VNum 7).
Proof.
  cbv zeta. split; [reflexivity|]. split; [|split; reflexivity].
  eexists. split; [reflexivity|]. split; [reflexivity | discriminate].
Qed.

(** C5, amended. When [eval] returns a result, the node keeps its
    function and its (empty) keyword arguments, and its stored positional
    arguments are now the resolved ones: from left to right, every
    argument that was not a node is kept and every argument that was a
    node is replaced by the result of its own [eval], and the function
    applied to them is the result. When none of the resolved arguments is
    a node, a second [eval] returns the same result at depth 1, without
    evaluating any other node, and leaves the store as it is. *)
Theorem eval_stores_resolved_args depth self h op v h' :
  h !! self = Some (OLazyOperation op) →
  eval depth self h = (Ok v, h') →
  ∃ d arg_list h1,
    depth = S d ∧
    resolved (eval d) (__args op) h arg_list h1 ∧
    h' = <[self := OLazyOperation
                     (mkLazyOperation (__func op) arg_list (__kwargs op))]> h1 ∧
    h' !! self =
      Some (OLazyOperation (mkLazyOperation (__func op) arg_list (__kwargs op))) ∧
    __kwargs op = [] ∧
    length arg_list = length (__args op) ∧
    (∀ i arg, __args op !! i = Some arg →
       isinstance_LazyOperation h arg = None → arg_list !! i = Some arg) ∧
    (∀ i arg l, __args op !! i = Some arg →
       isinstance_LazyOperation h arg = Some l →
       ∃ h_i h_i' w, preserved h h_i ∧ eval d l h_i = (Ok w, h_i') ∧
                     arg_list !! i = Some w) ∧
    __func op arg_list [] = Ok v ∧
    (Forall (λ arg, isinstance_LazyOperation h' arg = None) arg_list →
     eval 1 self h' = (Ok v, h')).
Proof.
  intros Hself Heval. destruct depth as [|d]; [done|].
  destruct (eval_args (eval d) (__args op) h) as [[arg_list|e] h1] eqn:Hargs.
  2:{ by rewrite eval_S, Hself, Hargs in Heval. }
  destruct (eval_resolved d self h op arg_list h1 Hself Hargs) as [Hstored Heq].
  rewrite Heq in Heval.
  destruct (__kwargs op) as [|kv kwargs] eqn:Hkw; [|done].
  injection Heval as Hv <-.
  pose proof (proj1 (eval_args_resolved _ _ _ _ _) Hargs) as Hresolved.
  exists d, arg_list, h1. split; [done|]. split; [done|].
  split.
  { apply map_eq. intros l. destruct (decide (self = l)) as [<- | Hne].
    - by rewrite Hstored, lookup_insert_eq.
    - by rewrite lookup_alter_ne, lookup_insert_ne. }
  split; [done|]. split; [done|].
  split; [by eapply eval_args_length|].
  split.
  { intros i arg Hi Hplain.
    eapply eval_args_plain; [apply eval_preserved | exact Hargs | done | done]. }
  split.
  { by apply (resolved_nodes (eval d) (__args op) h arg_list h1
                (eval_preserved d)). }
  split; [done|].
  intros Hplain. set (h' := alter (set_args_object arg_list) self h1) in *.
  pose proof (eval_args_no_LazyOperation (eval 0) _ _ Hplain) as Hargs'.
  destruct (eval_resolved 0 self h'
              (mkLazyOperation (__func op) arg_list []) arg_list h' Hstored Hargs')
    as [_ ->].
  simpl. rewrite Hv. f_equal. apply alter_id.
  intros o Ho. rewrite Hstored in Ho. by injection Ho as <-.
Qed.

Lemma eval_stores_resolved_args_witness :
  let inner := mkLazyOperation (λ _ _, Ok (VNum 7)) [] [] in
  let outer := mkLazyOperation func [VRef 1] [] in
  let h : heap :=
    <[0 := OLazyOperation outer]> {[ 1 := OLazyOperation inner ]} in
  ∃ d arg_list h1,
    2 = S d ∧
    resolved (eval d) [VRef 1] h arg_list h1 ∧
    (eval 2 0 h).2 = <[0 := OLazyOperation (mkLazyOperation func arg_list [])]> h1 ∧
    length arg_list = 1 ∧
    (∃ h_i h_i' w, preserved h h_i ∧ eval d 1 h_i = (Ok w, h_i') ∧
                   arg_list !! 0 = Some w) ∧
    func arg_list [] = Ok (VNum 7) ∧
    (Forall (λ arg, isinstance_LazyOperation (eval 2 0 h).2 arg = None) arg_list →
     eval 1 0 (eval 2 0 h).2 = (Ok (VNum 7), (eval 2 0 h).2)).
Proof.
  intros inner outer h.
  destruct (eval_stores_resolved_args 2 0 h outer (VNum 7) (eval 2 0 h).2
              eq_refl eq_refl)
    as (d & arg_list & h1 & Hd & Hresolved & Hstore & _ & _ & Hlen & _ & Hnodes
        & Hfunc & Hagain).
  exists d, arg_list, h1. repeat split; try assumption.
  apply (Hnodes 0 (VRef 1) 1); reflexivity.
Defined.

(** [__eq__] holds between a container and itself. *)
Lemma list_eqb_refl {A} (eqb : A → A → bool) (l : list A) :
  (∀ x, eqb x x = true) → list_eqb eqb l l = true.
Proof. intros Hrefl. induction l as [|x l IH]; simpl; [done|]. by rewrite Hrefl. Qed.

Lemma eq_refl_TimeSeries (ts : TimeSeries) : __eq__ ts ts = true.
Proof.
  apply list_eqb_refl. intros [t v]. unfold item_eqb. simpl.
  by rewrite !(proj2 (Qeq_bool_iff _ _) (Qeq_refl _)).
Qed.

(** C9. [lazy] on a stored container makes a new node that holds the
    identity function and the container as its one argument; [eval] of
    that node, at any positive depth, returns the container and leaves
    the store as it is, and the container is equal to the original under
    [__eq__]. *)
Theorem lazy_eval_roundtrip depth self h ts :
  h !! self = Some (OTimeSeries ts) →
  (lazy self h).2 !! (lazy self h).1 =
    Some (OLazyOperation (mkLazyOperation func [VRef self] [])) ∧
  (∀ x, func [x] [] = Ok x) ∧
  (∀ l, l ≠ (lazy self h).1 → (lazy self h).2 !! l = h !! l) ∧
  h !! (lazy self h).1 = None ∧
  ∃ ts', eval (S depth) (lazy self h).1 (lazy self h).2 =
           (Ok (VRef self), (lazy self h).2) ∧
         (lazy self h).2 !! self = Some (OTimeSeries ts') ∧
         __eq__ ts ts' = true.
Proof.
  intros Hself. unfold lazy, new_LazyOperation. cbn [fst snd].
  set (l := fresh (dom h)).
  set (node := mkLazyOperation func [VRef self] []).
  assert (Hfresh : h !! l = None).
  { apply not_elem_of_dom. apply is_fresh. }
  assert (Hne : l ≠ self) by congruence.
  split; [apply lookup_insert_eq|]. split; [done|].
  split; [intros l' Hl'; by apply lookup_insert_ne|]. split; [done|].
  exists ts.
  assert (Hself' : <[l := OLazyOperation node]> h !! self = Some (OTimeSeries ts))
    by (by rewrite lookup_insert_ne).
  split; [|split; [done | apply eq_refl_TimeSeries]].
  assert (Hargs : eval_args (eval depth) (__args node)
                    (<[l := OLazyOperation node]> h) =
                  (Ok [VRef self], <[l := OLazyOperation node]> h)).
  { apply eval_args_no_LazyOperation. repeat constructor. simpl. by rewrite Hself'. }
  destruct (eval_resolved depth l _ node _ _ (lookup_insert_eq h l _) Hargs)
    as [_ ->].
  simpl. f_equal. apply alter_id. intros o Ho.
  rewrite lookup_insert_eq in Ho. by injection Ho as <-.
Qed.

Lemma lazy_eval_roundtrip_witness :
  let ts := mkTimeSeries [0; 5; 10]%Q [1; 2; 3]%Q int64 in
  let h : heap := {[ 0 := OTimeSeries ts ]} in
  ∃ ts', eval 1 (lazy 0 h).1 (lazy 0 h).2 = (Ok (VRef 0), (lazy 0 h).2) ∧
         (lazy 0 h).2 !! 0 = Some (OTimeSeries ts') ∧
         __eq__ ts ts' = true.
Proof.
  intros ts h.
  apply (lazy_eval_roundtrip 0 0 h ts). reflexivity.
Defined.

End lazy_operation_claims.

(** * Further properties of the container *)

Section container_more.
Implicit Types (self ts : TimeSeries) (time value : Q) (a b : list Q).

(** Keys are compared as numbers: equal keys select the same positions. *)
Lemma where_from_Qeq a (x y : Q) i :
  (x == y)%Q → np.where_from i a x = np.where_from i a y.
Proof.
  intros Hxy. revert i. induction a as [|z a IH]; intros i; simpl; [done|].
  assert (Qeq_bool z x = Qeq_bool z y) as ->.
  { destruct (Qeq_bool z y) eqn:Hzy.
    - apply Qeq_bool_iff. apply Qeq_bool_iff in Hzy. by rewrite Hxy.
    - destruct (Qeq_bool z x) eqn:Hzx; [|done].
      apply Qeq_bool_iff in Hzx. rewrite Hxy in Hzx.
      apply Qeq_bool_iff in Hzx. congruence. }
  by rewrite !IH.
Qed.

Lemma where_from_Forall2 a b (x : Q) i :
  Forall2 Qeq a b → np.where_from i a x = np.where_from i b x.
Proof.
  intros Hab. revert i. induction Hab as [|y z a b Hyz _ IH]; intros i; simpl; [done|].
  assert (Qeq_bool y x = Qeq_bool z x) as ->.
  { destruct (Qeq_bool z x) eqn:Hzx.
    - apply Qeq_bool_iff. apply Qeq_bool_iff in Hzx. by rewrite Hyz.
    - destruct (Qeq_bool y x) eqn:Hyx; [|done].
      apply Qeq_bool_iff in Hyx. rewrite Hyz in Hyx.
      apply Qeq_bool_iff in Hyx. congruence. }
  by rewrite !IH.
Qed.

Lemma setitem_times self time value :
  _times (__setitem__ self time value).2 = _times self.
Proof.
  unfold __setitem__. destruct (length _ =? 0); [done|].
  by destruct (np.put _ _ _ _).
Qed.

Lemma setitem_dtype self time value :
  _values_dtype (__setitem__ self time value).2 = _values_dtype self.
Proof.
  unfold __setitem__. destruct (length _ =? 0); [done|].
  by destruct (np.put _ _ _ _).
Qed.

Lemma setitem_values_length self time value :
  length (_values (__setitem__ self time value).2) = length (_values self).
Proof.
  unfold __setitem__. destruct (length _ =? 0); [done|].
  destruct (np.put _ _ _ _) as [values|e] eqn:Hput; [|done].
  apply put_inv in Hput as ->. simpl. apply foldl_insert_length.
Qed.

Lemma setitem_values_other self time value m tm :
  _times self !! m = Some tm → ¬ (tm == time)%Q →
  _values (__setitem__ self time value).2 !! m = _values self !! m.
Proof.
  intros Hm Hne. unfold __setitem__.
  destruct (length _ =? 0); [done|].
  destruct (np.put _ _ _ _) as [values|e] eqn:Hput; [|done].
  apply put_inv in Hput as ->. simpl.
  apply foldl_insert_lookup_notin. intros Hin.
  apply elem_of_where_eq in Hin as (y & Hy & Heq). congruence.
Qed.

Lemma contains_true self time :
  __contains__ self time = true ↔ ∃ x, x ∈ _times self ∧ (x == time)%Q.
Proof.
  unfold __contains__. rewrite existsb_exists. split.
  - intros (x & Hx & Heq). exists x. split; [by apply list_elem_of_In|].
    by apply Qeq_bool_iff.
  - intros (x & Hx & Heq). exists x. split; [by apply list_elem_of_In|].
    by apply Qeq_bool_iff.
Qed.

(** X1. Construction without values never fails: the container has one
    value for every time, every value is zero, and [Get] at every stored
    time returns zero. *)
Theorem init_default_zeros (times : list Q) :
  ∃ ts, __init__ times None = Ok ts ∧
    _times ts = times ∧ wf ts ∧ __len__ ts = length times ∧
    (∀ i v, _values ts !! i = Some v → v = 0%Q) ∧
    (∀ time, __contains__ ts time = true → __getitem__ ts time = Ok 0%Q).
Proof.
  unfold __init__, np.zeros. simpl. rewrite length_replicate, Nat.eqb_refl.
  eexists. split; [done|]. simpl.
  assert (Hwf : wf (mkTimeSeries times (replicate (length times) 0%Q) float64)).
  { unfold wf. simpl. by rewrite length_replicate. }
  assert (Hzero : ∀ i v, replicate (length times) 0%Q !! i = Some v → v = 0%Q).
  { intros i v Hv. by apply lookup_replicate in Hv as [-> _]. }
  repeat split; try done.
  intros time Hin. apply contains_true in Hin as (x & Hx & Heq).
  apply list_elem_of_lookup in Hx as [i Hi].
  destruct (getitem_first _ time i x Hwf Hi Heq)
    as (k & tk & vk & _ & _ & _ & _ & Hvk & ->).
  simpl in Hvk. by rewrite (Hzero k vk Hvk).
Qed.

(** X2. After a successful [Set(time, value)], [Get] at that time, or at
    any key equal to it as a number, returns the value as the array keeps
    it: [value] itself when the values are floats, a number equal to
    [value] when [value] is an integer, and the integer part of [value]
    when the values are integers. *)
Theorem setitem_getitem self time value (time' : Q) :
  wf self → (__setitem__ self time value).1 = Ok tt → (time' == time)%Q →
  __getitem__ (__setitem__ self time value).2 time'
    = Ok (np.astype (_values_dtype self) value) ∧
  (_values_dtype self = float64 →
   __getitem__ (__setitem__ self time value).2 time' = Ok value) ∧
  (∀ z : Z, (value == inject_Z z)%Q →
   ∃ v, __getitem__ (__setitem__ self time value).2 time' = Ok v ∧
        (v == value)%Q) ∧
  (_values_dtype self = int64 →
   __getitem__ (__setitem__ self time value).2 time'
     = Ok (inject_Z (Z.quot (Qnum value) (Zpos (Qden value))))).
Proof.
  intros Hwf Hok Heq.
  assert (Hget : __getitem__ (__setitem__ self time value).2 time'
                 = Ok (np.astype (_values_dtype self) value)).
  { destruct (match_dec self time) as [(x & Hx & Hxt) | Hno].
    2:{ rewrite setitem_no_match in Hok by done. done. }
    apply list_elem_of_lookup in Hx as [i Hi].
    assert (Hwf' : wf (__setitem__ self time value).2).
    { unfold wf. by rewrite setitem_times, setitem_values_length. }
    assert (Hi' : _times (__setitem__ self time value).2 !! i = Some x)
      by (by rewrite setitem_times).
    assert (Hxt' : (x == time')%Q) by (by rewrite Heq).
    destruct (getitem_first _ time' i x Hwf' Hi' Hxt')
      as (k & tk & vk & _ & Htk & Hktime & _ & Hvk & ->).
    f_equal. rewrite setitem_times in Htk.
    rewrite (setitem_match self time value i x) in Hvk by done. simpl in Hvk.
    rewrite foldl_insert_lookup_in in Hvk; [congruence | |].
    - apply elem_of_where_eq. exists tk. split; [done|]. by rewrite Hktime.
    - rewrite <- Hwf. by eapply lookup_lt_Some. }
  split; [done|]. split; [|split].
  - intros Hdt. by rewrite Hget, Hdt.
  - intros z Hz. eexists. split; [done|]. by eapply astype_integer.
  - intros Hdt. by rewrite Hget, Hdt.
Qed.

Lemma setitem_getitem_witness :
  let self := mkTimeSeries [0; 5; 0]%Q [1; 2; 3]%Q int64 in
  __getitem__ (__setitem__ self 5 (27 # 10)).2 (10 # 2) = Ok 2%Q.
Proof.
  intros self.
  apply (proj2 (proj2 (proj2
           (setitem_getitem self 5 (27 # 10) (10 # 2) eq_refl eq_refl eq_refl)))).
  reflexivity.
Defined.

(** X3. [Set] keeps the container well formed: the numbers of times and
    of values do not change, the invariant of construction still holds,
    and membership of every key is as before. *)
Theorem setitem_invariant self time value :
  wf self →
  wf (__setitem__ self time value).2 ∧
  __len__ (__setitem__ self time value).2 = __len__ self ∧
  length (_values (__setitem__ self time value).2) = length (_values self) ∧
  ∀ time', __contains__ (__setitem__ self time value).2 time' =
           __contains__ self time'.
Proof.
  intros Hwf. unfold wf, __len__, __contains__.
  rewrite setitem_times, setitem_values_length. done.
Qed.

Lemma setitem_invariant_witness :
  wf (__setitem__ (mkTimeSeries [0; 5; 0]%Q [1; 2; 3]%Q int64) 0 9).2.
Proof.
  apply (setitem_invariant (mkTimeSeries [0; 5; 0]%Q [1; 2; 3]%Q int64) 0 9).
  reflexivity.
Defined.

(** X4. [Set] at one key does not change what [Get] returns, or raises,
    at a key that is a different number. *)
Theorem setitem_getitem_other self time value (time' : Q) :
  ¬ (time' == time)%Q →
  __getitem__ (__setitem__ self time value).2 time' = __getitem__ self time'.
Proof.
  intros Hne. unfold __getitem__. rewrite setitem_times.
  destruct (np.where_eq (_times self) time') as [|k rest] eqn:Hw; [done|].
  assert (Hk : k ∈ np.where_eq (_times self) time') by (rewrite Hw; left).
  apply elem_of_where_eq in Hk as (tk & Htk & Hktime).
  unfold np.item. rewrite (setitem_values_other self time value k tk); [done..|].
  intros Heq. apply Hne. by rewrite <- Hktime.
Qed.

Lemma setitem_getitem_other_witness :
  __getitem__ (__setitem__ (mkTimeSeries [0; 5; 0]%Q [1; 2; 3]%Q int64) 0 9).2 5
  = __getitem__ (mkTimeSeries [0; 5; 0]%Q [1; 2; 3]%Q int64) 5.
Proof.
  apply (setitem_getitem_other (mkTimeSeries [0; 5; 0]%Q [1; 2; 3]%Q int64) 0 9 5).
  discriminate.
Defined.

(** X5. Membership decides [Get]: on a well-formed container [time in
    ts] is true exactly when [Get] returns a value, and false exactly
    when [Get] raises [KeyNotFound]. *)
Theorem contains_iff_getitem self time :
  wf self →
  (__contains__ self time = true ↔ ∃ v, __getitem__ self time = Ok v) ∧
  (__contains__ self time = false ↔ __getitem__ self time = Raise KeyNotFound).
Proof.
  intros Hwf.
  assert (Hyes : __contains__ self time = true → ∃ v, __getitem__ self time = Ok v).
  { intros Hin. apply contains_true in Hin as (x & Hx & Heq).
    apply list_elem_of_lookup in Hx as [i Hi].
    destruct (getitem_first self time i x Hwf Hi Heq)
      as (k & tk & vk & _ & _ & _ & _ & _ & Hget). eauto. }
  assert (Hno : __contains__ self time = false → __getitem__ self time = Raise KeyNotFound).
  { intros Hout. apply getitem_no_match. intros x Hx Heq.
    assert (__contains__ self time = true) by (apply contains_true; eauto).
    congruence. }
  split; split; try done.
  - intros [v Hv]. destruct (__contains__ self time) eqn:Hc; [done|].
    rewrite Hno in Hv by done. done.
  - intros Hraise. destruct (__contains__ self time) eqn:Hc; [|done].
    destruct (Hyes eq_refl) as [v Hv]. congruence.
Qed.

Lemma contains_iff_getitem_witness :
  let self := mkTimeSeries [0; 5; 10]%Q [1; 2; 3]%Q int64 in
  (__contains__ self 5 = true ↔ ∃ v, __getitem__ self 5 = Ok v) ∧
  (__contains__ self 5 = false ↔ __getitem__ self 5 = Raise KeyNotFound).
Proof.
  apply (contains_iff_getitem (mkTimeSeries [0; 5; 10]%Q [1; 2; 3]%Q int64) 5).
  reflexivity.
Defined.

(** [a[index] = v] at the position [j]. *)
Lemma foldl_insert_lookup (v : Q) index a j :
  foldl (λ acc i, <[i := v]> acc) a index !! j =
  if decide (j ∈ index) then (λ _, v) <$> a !! j else a !! j.
Proof.
  destruct (decide (j ∈ index)) as [Hin | Hnotin].
  - destruct (a !! j) as [x|] eqn:Hj; simpl.
    + apply foldl_insert_lookup_in; [done | by eapply lookup_lt_Some].
    + apply lookup_ge_None. rewrite foldl_insert_length. by apply lookup_ge_None.
  - by apply foldl_insert_lookup_notin.
Qed.

(** X6. The last [Set] wins: writing [value] and then [value'] at the
    same key leaves the container as writing [value'] alone does. *)
Theorem setitem_setitem self time value (value' : Q) :
  wf self →
  __setitem__ (__setitem__ self time value).2 time value' =
  __setitem__ self time value'.
Proof.
  intros Hwf.
  destruct (match_dec self time) as [(x & Hx & Hxt) | Hno].
  2:{ by rewrite (setitem_no_match self time value) by done. }
  apply list_elem_of_lookup in Hx as [i Hi].
  assert (Hwf' : wf (__setitem__ self time value).2).
  { unfold wf. by rewrite setitem_times, setitem_values_length. }
  assert (Hi' : _times (__setitem__ self time value).2 !! i = Some x)
    by (by rewrite setitem_times).
  rewrite (setitem_match _ time value' i x Hwf' Hi' Hxt).
  rewrite (setitem_match self time value' i x Hwf Hi Hxt).
  rewrite setitem_times, setitem_dtype. f_equal. f_equal.
  rewrite (setitem_match self time value i x Hwf Hi Hxt). simpl.
  apply list_eq. intros j. rewrite !foldl_insert_lookup.
  destruct (decide (j ∈ np.where_eq (_times self) time)); [|done].
  by destruct (_values self !! j).
Qed.

Lemma setitem_setitem_witness :
  __setitem__ (__setitem__ (mkTimeSeries [0; 5; 0]%Q [1; 2; 3]%Q int64) 0 9).2 0 7 =
  __setitem__ (mkTimeSeries [0; 5; 0]%Q [1; 2; 3]%Q int64) 0 7.
Proof.
  apply (setitem_setitem (mkTimeSeries [0; 5; 0]%Q [1; 2; 3]%Q int64) 0 9 7).
  reflexivity.
Defined.

End container_more.

(** * Equality of containers *)

Section equality.
Implicit Types (a b c : TimeSeries).

Lemma list_eqb_Forall2 {A} (eqb : A → A → bool) (l k : list A) :
  list_eqb eqb l k = true ↔ Forall2 (λ x y, eqb x y = true) l k.
Proof.
  revert k. induction l as [|x l IH]; intros [|y k]; simpl.
  - split; [constructor | done].
  - split; [done | intros H; inversion H].
  - split; [done | intros H; inversion H].
  - rewrite andb_true_iff, IH. split.
    + intros [Hxy Hlk]. by constructor.
    + intros H. by inversion H.
Qed.

Lemma item_eqb_true (p q : Q * Q) :
  item_eqb p q = true ↔ (p.1 == q.1)%Q ∧ (p.2 == q.2)%Q.
Proof. unfold item_eqb. by rewrite andb_true_iff, !Qeq_bool_iff. Qed.

(** Two lists of pairs that were zipped from lists of the same lengths
    are related position by position exactly when their components are. *)
Lemma zip_Forall2 (ta va tb vb : list Q) :
  length ta = length va → length tb = length vb →
  Forall2 (λ p q, item_eqb p q = true) (zip ta va) (zip tb vb) ↔
  Forall2 Qeq ta tb ∧ Forall2 Qeq va vb.
Proof.
  revert va tb vb.
  induction ta as [|t ta IH]; intros [|v va] [|t' tb] [|v' vb] Ha Hb;
    simpl in *; try done.
  - split; [intros H; inversion H | intros [H _]; inversion H].
  - split; [intros H; inversion H | intros [H _]; inversion H].
  - injection Ha as Ha. injection Hb as Hb. split.
    + intros H. inversion H as [|? ? ? ? Hhead Htail]; subst.
      apply item_eqb_true in Hhead as [Ht Hv]. simpl in *.
      apply (IH va tb vb Ha Hb) in Htail as [Hts Hvs].
      split; by constructor.
    + intros [Hts Hvs].
      inversion Hts as [|? ? ? ? Ht Hts']; subst.
      inversion Hvs as [|? ? ? ? Hv Hvs']; subst.
      constructor; [by apply item_eqb_true|].
      by apply (IH va tb vb Ha Hb).
Qed.

(** X7. On well-formed containers [==] holds exactly when the two
    containers have as many samples and, position by position, times that
    are equal numbers and values that are equal numbers. *)
Theorem eq_elementwise a b :
  wf a → wf b →
  (__eq__ a b = true ↔
   Forall2 Qeq (_times a) (_times b) ∧ Forall2 Qeq (_values a) (_values b)).
Proof.
  intros Ha Hb. unfold __eq__, items.
  rewrite list_eqb_Forall2. by apply zip_Forall2.
Qed.

Lemma eq_elementwise_witness :
  __eq__ (mkTimeSeries [0; 5]%Q [1; 2]%Q int64) (mkTimeSeries [0; 10 # 2]%Q [2 # 2; 2]%Q float64)
    = true ↔
  Forall2 Qeq [0; 5]%Q [0; 10 # 2]%Q ∧ Forall2 Qeq [1; 2]%Q [2 # 2; 2]%Q.
Proof.
  apply (eq_elementwise (mkTimeSeries [0; 5]%Q [1; 2]%Q int64)
           (mkTimeSeries [0; 10 # 2]%Q [2 # 2; 2]%Q float64)); reflexivity.
Defined.

Lemma Qeq_bool_sym_bool (x y : Q) : Qeq_bool x y = Qeq_bool y x.
Proof.
  destruct (Qeq_bool y x) eqn:Hyx.
  - apply Qeq_bool_iff. apply Qeq_bool_iff in Hyx. by symmetry.
  - destruct (Qeq_bool x y) eqn:Hxy; [|done].
    apply Qeq_bool_iff in Hxy. symmetry in Hxy.
    apply Qeq_bool_iff in Hxy. congruence.
Qed.

Lemma list_eqb_sym {A} (eqb : A → A → bool) (l k : list A) :
  (∀ x y, eqb x y = eqb y x) → list_eqb eqb l k = list_eqb eqb k l.
Proof.
  intros Hsym. revert k. induction l as [|x l IH]; intros [|y k]; simpl; try done.
  by rewrite Hsym, IH.
Qed.

(** X8. [==] on containers is reflexive, symmetric and transitive, for
    all containers. *)
Theorem eq_equivalence a b c :
  __eq__ a a = true ∧
  __eq__ a b = __eq__ b a ∧
  (__eq__ a b = true → __eq__ b c = true → __eq__ a c = true).
Proof.
  split; [apply eq_refl_TimeSeries|]. split.
  - unfold __eq__. apply list_eqb_sym. intros p q. unfold item_eqb.
    by rewrite (Qeq_bool_sym_bool p.1), (Qeq_bool_sym_bool p.2).
  - unfold __eq__. rewrite !list_eqb_Forall2. intros Hab Hbc.
    eapply Forall2_trans; [|done..].
    intros p q r Hpq Hqr.
    apply item_eqb_true in Hpq as [H1 H2]. apply item_eqb_true in Hqr as [H3 H4].
    apply item_eqb_true. split; [by rewrite H1 | by rewrite H2].
Qed.

Lemma eq_equivalence_witness :
  __eq__ (mkTimeSeries [0]%Q [1]%Q int64) (mkTimeSeries [0]%Q [3 # 3]%Q float64) = true.
Proof.
  apply (eq_equivalence (mkTimeSeries [0]%Q [1]%Q int64) (mkTimeSeries [0]%Q [2 # 2]%Q float64)
           (mkTimeSeries [0]%Q [3 # 3]%Q float64)); reflexivity.
Defined.

(** X9. Equal containers cannot be told apart by reading them: they have
    the same size, the same members, and at every key [Get] raises the
    same exception on both or returns equal numbers. *)
Theorem eq_observations a b (time : Q) :
  wf a → wf b → __eq__ a b = true →
  __len__ a = __len__ b ∧
  __contains__ a time = __contains__ b time ∧
  match __getitem__ a time, __getitem__ b time with
  | Ok x, Ok y => (x == y)%Q
  | Raise e, Raise e' => e = e'
  | _, _ => False
  end.
Proof.
  intros Ha Hb Heq. apply eq_elementwise in Heq as [Hts Hvs]; [|done..].
  split; [by apply Forall2_length in Hts|]. split.
  - unfold __contains__. induction Hts as [|x y ta tb Hxy _ IH]; simpl; [done|].
    rewrite IH. f_equal.
    destruct (Qeq_bool y time) eqn:Hy.
    + apply Qeq_bool_iff. apply Qeq_bool_iff in Hy. by rewrite Hxy.
    + destruct (Qeq_bool x time) eqn:Hx; [|done].
      apply Qeq_bool_iff in Hx. rewrite Hxy in Hx.
      apply Qeq_bool_iff in Hx. congruence.
  - unfold __getitem__, np.where_eq.
    rewrite (where_from_Forall2 _ _ time 0 Hts).
    destruct (np.where_from 0 (_times b) time) as [|k rest]; [done|].
    unfold np.item.
    destruct (_values a !! k) as [x|] eqn:Hx.
    + destruct (Forall2_lookup_l _ _ _ _ _ Hvs Hx) as (y & -> & Hxy). done.
    + destruct (_values b !! k) as [y|] eqn:Hy; [|done].
      destruct (Forall2_lookup_r _ _ _ _ _ Hvs Hy) as (x & Hx' & _). congruence.
Qed.

Lemma eq_observations_witness :
  let a := mkTimeSeries [0; 5]%Q [1; 2]%Q int64 in
  let b := mkTimeSeries [0; 10 # 2]%Q [2 # 2; 2]%Q float64 in
  __len__ a = __len__ b ∧
  __contains__ a 5 = __contains__ b 5 ∧
  match __getitem__ a 5, __getitem__ b 5 with
  | Ok x, Ok y => (x == y)%Q
  | Raise e, Raise e' => e = e'
  | _, _ => False
  end.
Proof.
  apply (eq_observations (mkTimeSeries [0; 5]%Q [1; 2]%Q int64)
           (mkTimeSeries [0; 10 # 2]%Q [2 # 2; 2]%Q float64) 5); reflexivity.
Defined.

End equality.

(** * Further properties of interpolation *)

Section interpolation_more.
Implicit Types (self : TimeSeries) (time : Q) (times values : list Q).

(** The three branches of the loop body on a well-formed, non-empty
    container. *)
Lemma interpolate_time_cases self time :
  wf self → _times self ≠ [] →
  (np.searchsorted_right (_times self) time = __len__ self ∧
   ∃ v, last (_values self) = Some v ∧ interpolate_time self time = Ok v) ∨
  (np.searchsorted_right (_times self) time = 0 ∧
   ∃ v, _values self !! 0 = Some v ∧ interpolate_time self time = Ok v) ∨
  (0 < np.searchsorted_right (_times self) time < __len__ self ∧
   ∃ t_left t_right v_left v_right,
     _times self !! (np.searchsorted_right (_times self) time - 1) = Some t_left ∧
     _times self !! np.searchsorted_right (_times self) time = Some t_right ∧
     _values self !! (np.searchsorted_right (_times self) time - 1) = Some v_left ∧
     _values self !! np.searchsorted_right (_times self) time = Some v_right ∧
     (t_left <= time)%Q ∧ (time < t_right)%Q ∧
     interpolate_time self time =
       if Qeq_bool (v_right - v_left) 0 then Raise ZeroDivisionError
       else Ok (v_left + (time - t_left) / ((t_right - t_left) / (v_right - v_left)))%Q).
Proof.
  intros Hwf Hne.
  assert (Hlen : 0 < length (_times self))
    by (destruct (_times self); [done | simpl; lia]).
  destruct (searchsorted_right_bounds (_times self) time) as (Hle & _ & _).
  set (r := np.searchsorted_right (_times self) time) in *.
  destruct (decide (r = __len__ self)) as [Hr | Hr].
  { left. split; [done|].
    destruct (proj2 (last_is_Some (_values self))) as [v Hv].
    { intros Hnil. unfold wf in Hwf. rewrite Hnil in Hwf. simpl in Hwf. lia. }
    exists v. split; [done|]. rewrite interpolate_time_right by done.
    unfold np.item_last. by rewrite Hv. }
  destruct (decide (r = 0)) as [H0 | H0].
  { right. left. split; [done|].
    destruct (lookup_lt_is_Some_2 (_values self) 0) as [v Hv].
    { unfold wf in Hwf. lia. }
    exists v. split; [done|]. rewrite interpolate_time_left by done.
    unfold np.item. by rewrite Hv. }
  right. right. unfold __len__ in *. split; [lia|].
  destruct (lookup_lt_is_Some_2 (_times self) (r - 1)) as [t_left Htl]; [lia|].
  destruct (lookup_lt_is_Some_2 (_times self) r) as [t_right Htr]; [lia|].
  destruct (lookup_lt_is_Some_2 (_values self) (r - 1)) as [v_left Hvl].
  { unfold wf in Hwf. lia. }
  destruct (lookup_lt_is_Some_2 (_values self) r) as [v_right Hvr].
  { unfold wf in Hwf. lia. }
  exists t_left, t_right, v_left, v_right.
  destruct (interior_segment self time t_left t_right Htl Htr) as [Hlo Hhi]; [fold r; lia|].
  repeat split; try done.
  apply interpolate_time_interior; try done. unfold __len__. fold r. lia.
Qed.

Lemma interpolate_loop_Raise self times values e :
  interpolate_loop self times values = Raise e →
  ∃ time, time ∈ times ∧ interpolate_time self time = Raise e.
Proof.
  revert values. induction times as [|t times IH]; intros values; simpl; [done|].
  destruct (interpolate_time self t) as [v|e'] eqn:Ht; simpl.
  - intros Hrest. destruct (IH _ Hrest) as (time & Hin & Htime).
    exists time. split; [by right | done].
  - intros [= ->]. exists t. split; [by left | done].
Qed.

Lemma interpolate_Raise self times e :
  interpolate self times = Raise e →
  ∃ time, time ∈ times ∧ interpolate_time self time = Raise e.
Proof.
  unfold interpolate.
  destruct (interpolate_loop self times []) as [values|e'] eqn:Hloop; simpl.
  - apply interpolate_loop_Ok in Hloop as (vs & -> & Hvs). simpl.
    by rewrite init_PyList_zip
      by (rewrite ?length_fmap; by apply Forall2_length in Hvs).
  - intros [= ->]. by eapply interpolate_loop_Raise.
Qed.

Lemma interpolate_total self times :
  (∀ time, time ∈ times → ∃ v, interpolate_time self time = Ok v) →
  ∃ r, interpolate self times = Ok r.
Proof.
  intros Hall. destruct (interpolate self times) as [r|e] eqn:Hr; [eauto|].
  apply interpolate_Raise in Hr as (time & Hin & Hraise).
  destruct (Hall time Hin) as [v Hv]. congruence.
Qed.

(** X10. On a well-formed, non-empty container [interpolate] can only
    fail by [ZeroDivisionError], and only when two adjacent stored values
    are equal; when no two adjacent values are equal it returns, for every
    list of query times, a well-formed container keyed by these times. *)
Theorem interpolate_errors self :
  wf self → _times self ≠ [] →
  (∀ times e, interpolate self times = Raise e →
     e = ZeroDivisionError ∧
     ∃ i x y, _values self !! i = Some x ∧ _values self !! S i = Some y ∧
              (x == y)%Q) ∧
  ((∀ i x y, _values self !! i = Some x → _values self !! S i = Some y →
             ¬ (x == y)%Q) →
   ∀ times, ∃ r, interpolate self times = Ok r ∧ _times r = times ∧ wf r ∧
                 __len__ r = length times).
Proof.
  intros Hwf Hne.
  assert (Hone : ∀ time e, interpolate_time self time = Raise e →
     e = ZeroDivisionError ∧
     ∃ i x y, _values self !! i = Some x ∧ _values self !! S i = Some y ∧
              (x == y)%Q).
  { intros time e Hraise.
    destruct (interpolate_time_cases self time Hwf Hne)
      as [(_ & v & _ & Hv) | [(_ & v & _ & Hv) | (Hr & tl & tr & vl & vr & _ & _ & Hvl & Hvr & _ & _ & Heq)]];
      [congruence | congruence |].
    rewrite Heq in Hraise.
    destruct (Qeq_bool (vr - vl) 0) eqn:Hz; [|done].
    injection Hraise as <-. split; [done|].
    exists (np.searchsorted_right (_times self) time - 1), vl, vr.
    split; [done|]. split.
    - by replace (S (np.searchsorted_right (_times self) time - 1))
        with (np.searchsorted_right (_times self) time) by lia.
    - apply Qeq_bool_iff in Hz. lra. }
  split.
  - intros times e Hraise.
    apply interpolate_Raise in Hraise as (time & _ & Htime). by eapply Hone.
  - intros Hdistinct times.
    destruct (interpolate_total self times) as [r Hr].
    { intros time _. destruct (interpolate_time self time) as [v|e] eqn:Ht; [eauto|].
      destruct (Hone time e Ht) as (_ & i & x & y & Hx & Hy & Hxy).
      by destruct (Hdistinct i x y). }
    exists r. split; [done|].
    apply interpolate_Ok in Hr as (Htimes & Hvs & _).
    apply Forall2_length in Hvs.
    unfold wf, __len__. rewrite Htimes. done.
Qed.

Lemma interpolate_errors_witness :
  ∃ r, interpolate (mkTimeSeries [0; 5; 10]%Q [1; 2; 3]%Q int64) [1; 7]%Q = Ok r ∧
    _times r = [1; 7]%Q ∧ wf r ∧ __len__ r = length [1; 7]%Q.
Proof.
  apply (proj2 (interpolate_errors (mkTimeSeries [0; 5; 10]%Q [1; 2; 3]%Q int64)
                  eq_refl ltac:(discriminate))).
  intros [|[|[|i]]] x y Hx Hy; simpl in Hx, Hy; try discriminate.
  - injection Hx as <-. injection Hy as <-. discriminate.
  - injection Hx as <-. injection Hy as <-. discriminate.
Defined.

(** X11. Interpolating at no query time gives the empty container, on
    every container; interpolating any query time on the empty container
    raises [IndexError]. *)
Theorem interpolate_empty self time times :
  interpolate self [] = Ok (mkTimeSeries [] [] float64) ∧
  (wf self → _times self = [] →
   interpolate self (time :: times) = Raise IndexError).
Proof.
  split; [done|]. intros Hwf Hnil.
  assert (Hvalues : _values self = []).
  { apply length_zero_iff_nil. unfold wf in Hwf. by rewrite <- Hwf, Hnil. }
  unfold interpolate. simpl. unfold interpolate_time, __len__.
  by rewrite Hnil, Hvalues.
Qed.

Lemma interpolate_empty_witness :
  interpolate (mkTimeSeries [] [] float64) [1; 2]%Q = Raise IndexError.
Proof.
  apply (interpolate_empty (mkTimeSeries [] [] float64) 1 [2]%Q); reflexivity.
Defined.

(** X12. Interpolating a concatenation of query lists succeeds exactly
    when it succeeds on both lists, and then the result has the times and
    the values of the two results, one after the other, and the dtype
    that [np.array] gives to all the numbers computed. *)
Theorem interpolate_app self (times1 times2 : list Q) (r : TimeSeries) :
  interpolate self (times1 ++ times2) = Ok r ↔
  ∃ r1 r2, interpolate self times1 = Ok r1 ∧ interpolate self times2 = Ok r2 ∧
    r = mkTimeSeries (_times r1 ++ _times r2) (_values r1 ++ _values r2)
          (np.result_type (interpolate_dtype self <$> (times1 ++ times2))).
Proof.
  split.
  - intros Hr. apply interpolate_Ok in Hr as (Htimes & Hvs & Hdtype).
    apply Forall2_app_inv_l in Hvs as (vs1 & vs2 & Hvs1 & Hvs2 & Hvalues).
    exists (mkTimeSeries times1 vs1 (np.result_type (interpolate_dtype self <$> times1))),
           (mkTimeSeries times2 vs2 (np.result_type (interpolate_dtype self <$> times2))).
    split; [by apply interpolate_Ok|]. split; [by apply interpolate_Ok|].
    destruct r as [ts vs dt]. simpl in *. by subst.
  - intros (r1 & r2 & Hr1 & Hr2 & ->).
    apply interpolate_Ok in Hr1 as (<- & Hvs1 & _).
    apply interpolate_Ok in Hr2 as (<- & Hvs2 & _).
    apply interpolate_Ok. simpl. split; [done|]. split; [|done].
    by apply Forall2_app.
Qed.

End interpolation_more.

Section interpolation_values.
Implicit Types (self : TimeSeries) (time : Q) (times values : list Q).

(** X14. On sorted times, interpolating at a time that is stored reads
    the stored value: the insertion point is positive, the time just
    before it is the query, every value the loop body returns equals the
    value stored there, and the body does return one when that position
    is the last or the next stored value differs. *)
Theorem interpolate_at_stored_time self time (i : nat) (x : Q) :
  wf self → sortedb (_times self) = true →
  _times self !! i = Some x → (x == time)%Q →
  ∃ t_left v_left,
    i < np.searchsorted_right (_times self) time ∧
    _times self !! (np.searchsorted_right (_times self) time - 1) = Some t_left ∧
    (t_left == time)%Q ∧
    _values self !! (np.searchsorted_right (_times self) time - 1) = Some v_left ∧
    (∀ v, interpolate_time self time = Ok v → (v == v_left)%Q) ∧
    ((np.searchsorted_right (_times self) time = __len__ self ∨
      ∃ v_right, _values self !! np.searchsorted_right (_times self) time
                   = Some v_right ∧ ¬ (v_right == v_left)%Q) →
     ∃ v, interpolate_time self time = Ok v).
Proof.
  intros Hwf Hsorted Hi Hx.
  assert (Hne : _times self ≠ []) by (intros Hnil; by rewrite Hnil in Hi).
  assert (Hir : i < np.searchsorted_right (_times self) time).
  { apply (searchsorted_right_sorted _ time i x Hsorted Hi). lra. }
  destruct (searchsorted_right_bounds (_times self) time) as (Hle & Hlow & _).
  destruct Hlow as (t_left & Htl & Htl_le); [lia|].
  assert (Htl_eq : (t_left == time)%Q).
  { assert (x <= t_left)%Q
      by (apply (sortedb_lookup (_times self) i
                   (np.searchsorted_right (_times self) time - 1));
          [done | lia | done | done]).
    lra. }
  destruct (lookup_lt_is_Some_2 (_values self)
              (np.searchsorted_right (_times self) time - 1)) as [v_left Hvl].
  { unfold wf in Hwf. lia. }
  exists t_left, v_left. repeat split; try done.
  - intros v Hv.
    destruct (interpolate_time_cases self time Hwf Hne)
      as [(Hr & w & Hw & Heq) | [(Hr & _) |
          (Hr & tl & tr & vl & vr & Htl' & _ & Hvl' & _ & _ & _ & Heq)]];
      [| lia |].
    + assert (w = v) as -> by congruence.
      rewrite last_lookup in Hw. unfold wf in Hwf. rewrite <- Hwf in Hw.
      unfold __len__ in Hr. rewrite <- Hr in Hw.
      replace (Init.Nat.pred (np.searchsorted_right (_times self) time))
        with (np.searchsorted_right (_times self) time - 1) in Hw by lia.
      assert (v = v_left) as -> by congruence. lra.
    + assert (tl = t_left) as -> by congruence.
      assert (vl = v_left) as -> by congruence.
      rewrite Heq in Hv. destruct (Qeq_bool (vr - v_left) 0); [done|].
      injection Hv as <-. unfold Qdiv. rewrite Htl_eq. ring.
  - intros Hok.
    destruct (interpolate_time_cases self time Hwf Hne)
      as [(_ & w & _ & Heq) | [(Hr & _) |
          (Hr & tl & tr & vl & vr & _ & _ & Hvl' & Hvr' & _ & _ & Heq)]];
      [eauto | lia |].
    destruct Hok as [Hlast | (v_right & Hvr & Hdiff)]; [lia|].
    assert (vl = v_left) as -> by congruence.
    assert (vr = v_right) as -> by congruence.
    rewrite Heq. destruct (Qeq_bool (v_right - v_left) 0) eqn:Hz; [|eauto].
    apply Qeq_bool_iff in Hz. exfalso. apply Hdiff. lra.
Qed.

Lemma interpolate_at_stored_time_witness :
  ∃ t_left v_left,
    1 < np.searchsorted_right [0; 5; 10]%Q 5 ∧
    [0; 5; 10]%Q !! (np.searchsorted_right [0; 5; 10]%Q 5 - 1) = Some t_left ∧
    (t_left == 5)%Q ∧
    [1; 2; 3]%Q !! (np.searchsorted_right [0; 5; 10]%Q 5 - 1) = Some v_left ∧
    (∀ v, interpolate_time (mkTimeSeries [0; 5; 10]%Q [1; 2; 3]%Q int64) 5 = Ok v →
          (v == v_left)%Q) ∧
    ((np.searchsorted_right [0; 5; 10]%Q 5 = 3 ∨
      ∃ v_right, [1; 2; 3]%Q !! np.searchsorted_right [0; 5; 10]%Q 5
                   = Some v_right ∧ ¬ (v_right == v_left)%Q) →
     ∃ v, interpolate_time (mkTimeSeries [0; 5; 10]%Q [1; 2; 3]%Q int64) 5 = Ok v).
Proof.
  apply (interpolate_at_stored_time (mkTimeSeries [0; 5; 10]%Q [1; 2; 3]%Q int64)
           5 1 5); reflexivity.
Defined.

End interpolation_values.

(** * Further properties of deferred computations *)

Section lazy_operation_more.
Implicit Types (h : heap) (self l : loc) (op : LazyOperation)
  (arg : value) (args arg_list : list value).

(** X15. [eval] never creates or deletes an object, never changes a
    container, and never changes the function or the keyword arguments of
    any node: only stored positional arguments can change. *)
Theorem eval_frame depth self h :
  dom (eval depth self h).2 = dom h ∧
  (∀ l ts, h !! l = Some (OTimeSeries ts) →
     (eval depth self h).2 !! l = Some (OTimeSeries ts)) ∧
  (∀ l op, h !! l = Some (OLazyOperation op) →
     ∃ op', (eval depth self h).2 !! l = Some (OLazyOperation op') ∧
            __func op' = __func op ∧ __kwargs op' = __kwargs op).
Proof.
  pose proof (eval_preserved depth self h) as Hp.
  split; [|split].
  - apply set_eq. intros l. rewrite !elem_of_dom. specialize (Hp l).
    destruct (h !! l), ((eval depth self h).2 !! l); try done;
      split; intros [? ?]; eauto; done.
  - intros l ts Hl. by eapply preserved_TimeSeries.
  - intros l op Hl. by eapply preserved_LazyOperation.
Qed.

Lemma eval_frame_witness :
  let ts := mkTimeSeries [0; 5; 10]%Q [1; 2; 3]%Q int64 in
  let h : heap :=
    <[0 := OLazyOperation (mkLazyOperation func [VRef 1] [])]>
      {[ 1 := OTimeSeries ts ]} in
  (eval 3 0 h).2 !! 1 = Some (OTimeSeries ts).
Proof.
  intros ts h. apply (eval_frame 3 0 h). reflexivity.
Defined.

Lemma eval_args_mono (ev ev' : loc → M value) args h arg_list h' :
  (∀ l h0 v h1, ev l h0 = (Ok v, h1) → ev' l h0 = (Ok v, h1)) →
  eval_args ev args h = (Ok arg_list, h') →
  eval_args ev' args h = (Ok arg_list, h').
Proof.
  intros Hev. revert h arg_list h'.
  induction args as [|arg rest IH]; intros h arg_list h'; simpl; [done|].
  destruct (isinstance_LazyOperation h arg) as [l|]; unfold bind.
  - destruct (ev l h) as [[v|e] h1] eqn:Hl; [|done].
    rewrite (Hev _ _ _ _ Hl).
    destruct (eval_args ev rest h1) as [[vs|e] h2] eqn:Hrest; [|done].
    by rewrite (IH _ _ _ Hrest).
  - destruct (eval_args ev rest h) as [[vs|e] h2] eqn:Hrest; [|done].
    by rewrite (IH _ _ _ Hrest).
Qed.

Lemma eval_mono_S depth self h v h' :
  eval depth self h = (Ok v, h') → eval (S depth) self h = (Ok v, h').
Proof.
  revert self h v h'. induction depth as [|d IH]; intros self h v h'; [done|].
  rewrite (eval_S (S d)), (eval_S d).
  destruct (h !! self) as [[ts|op]|]; try done.
  destruct (eval_args (eval d) (__args op) h) as [[arg_list|e] h1] eqn:Hargs; [|done].
  by rewrite (eval_args_mono (eval d) (eval (S d)) _ _ _ _ IH Hargs).
Qed.

(** X16. A result does not depend on the bound of the recursion depth:
    when [eval] returns a value within some depth, it returns the same
    value and leaves the same store within every larger depth. *)
Theorem eval_depth_monotone depth depth' self h v h' :
  depth ≤ depth' →
  eval depth self h = (Ok v, h') → eval depth' self h = (Ok v, h').
Proof.
  intros Hle Heval. induction Hle as [|d Hle IH]; [done|].
  by apply eval_mono_S.
Qed.

Lemma eval_depth_monotone_witness :
  let inner := mkLazyOperation (λ _ _, Ok (VNum 7)) [] [] in
  let outer := mkLazyOperation func [VRef 1] [] in
  let h : heap :=
    <[0 := OLazyOperation outer]> {[ 1 := OLazyOperation inner ]} in
  eval 5 0 h = (Ok (VNum 7), (eval 2 0 h).2).
Proof.
  intros inner outer h.
  apply (eval_depth_monotone 2 5 0 h); [lia | reflexivity].
Defined.

End lazy_operation_more.

(** A node that is one of its own positional arguments. *)
Section self_reference.
Variables (self : loc) (op : LazyOperation).
Hypothesis Hcycle : VRef self ∈ __args op.
Implicit Types (h : heap) (l : loc) (args : list value).

Lemma eval_args_self_reference (ev : loc → M value) args h :
  (∀ l h0, h0 !! self = Some (OLazyOperation op) →
     (ev l h0).2 !! self = Some (OLazyOperation op) ∧
     (l = self → ∀ v, (ev l h0).1 ≠ Ok v)) →
  h !! self = Some (OLazyOperation op) →
  (eval_args ev args h).2 !! self = Some (OLazyOperation op) ∧
  (VRef self ∈ args → ∀ vs, (eval_args ev args h).1 ≠ Ok vs).
Proof using Type.
  intros Hev. revert h. induction args as [|arg rest IH]; intros h Hself; simpl.
  { split; [done|]. intros Hin. by apply elem_of_nil in Hin. }
  assert (Hisself : isinstance_LazyOperation h (VRef self) = Some self)
    by (simpl; by rewrite Hself).
  destruct (isinstance_LazyOperation h arg) as [l|] eqn:Harg; unfold bind, ret.
  - destruct (Hev l h Hself) as [Hkeep Hnot].
    destruct (ev l h) as [[v|e] h1] eqn:Hl; cbn [fst snd] in *.
    2:{ split; [done|]. by intros _ vs. }
    assert (Hne : l ≠ self) by (intros ->; by apply (Hnot eq_refl v)).
    destruct (IH h1 Hkeep) as [Hkeep' Hnot'].
    destruct (eval_args ev rest h1) as [[vs|e] h2] eqn:Hrest; cbn [fst snd] in *.
    2:{ split; [done|]. by intros _ vs. }
    split; [done|]. intros Hin vs' _.
    apply elem_of_cons in Hin as [<- | Hin]; [congruence|].
    by apply (Hnot' Hin vs).
  - destruct (IH h Hself) as [Hkeep' Hnot'].
    destruct (eval_args ev rest h) as [[vs|e] h2] eqn:Hrest; cbn [fst snd] in *.
    2:{ split; [done|]. by intros _ vs. }
    split; [done|]. intros Hin vs' _.
    apply elem_of_cons in Hin as [<- | Hin]; [congruence|].
    by apply (Hnot' Hin vs).
Qed.

Lemma eval_self_reference_invariant depth l h :
  h !! self = Some (OLazyOperation op) →
  (eval depth l h).2 !! self = Some (OLazyOperation op) ∧
  (l = self → ∀ v, (eval depth l h).1 ≠ Ok v).
Proof using Hcycle.
  revert l h. induction depth as [|d IH]; intros l h Hself; [done|].
  rewrite eval_S.
  destruct (h !! l) as [[ts|opl]|] eqn:Hl; [done | | done].
  destruct (eval_args_self_reference (eval d) (__args opl) h IH Hself)
    as [Hkeep Hnot].
  destruct (eval_args (eval d) (__args opl) h) as [[arg_list|e] h1] eqn:Hargs;
    simpl in *; [|done].
  assert (Hne : l ≠ self).
  { intros ->. assert (opl = op) as -> by congruence.
    by apply (Hnot Hcycle arg_list). }
  assert (Hkeep' : alter (set_args_object arg_list) l h1 !! self
                   = Some (OLazyOperation op)) by (by rewrite lookup_alter_ne).
  destruct (alter (set_args_object arg_list) l h1 !! l) as [[ts|op1]|];
    [done | | done].
  by destruct (__kwargs op1).
Qed.

End self_reference.

Section lazy_operation_cycles.
Implicit Types (h : heap) (self l : loc) (op : LazyOperation).

(** X17. There is no cycle detection: [eval] of a node that is one of
    its own positional arguments never returns a result, whatever the
    bound on the depth, and leaves the node as it is. *)
Theorem eval_self_reference depth self h op :
  h !! self = Some (OLazyOperation op) → VRef self ∈ __args op →
  (∀ v, (eval depth self h).1 ≠ Ok v) ∧
  (eval depth self h).2 !! self = Some (OLazyOperation op).
Proof.
  intros Hself Hcycle.
  destruct (eval_self_reference_invariant self op Hcycle depth self h Hself)
    as [Hkeep Hnot].
  split; [by apply Hnot | done].
Qed.

Lemma eval_self_reference_witness :
  let h : heap :=
    {[ 0 := OLazyOperation (mkLazyOperation func [VRef 0] []) ]} in
  (∀ v, (eval 100 0 h).1 ≠ Ok v) ∧
  (eval 100 0 h).2 !! 0 = Some (OLazyOperation (mkLazyOperation func [VRef 0] [])).
Proof.
  intros h.
  apply (eval_self_reference 100 0 h (mkLazyOperation func [VRef 0] []));
    [reflexivity | by left].
Defined.

End lazy_operation_cycles.

Section one_level.
Implicit Types (h : heap) (self l : loc) (op : LazyOperation)
  (arg : value) (args : list value).

(** A node that has only plain arguments and no keyword arguments
    evaluates to its function applied to them, and the store stays as it
    is. *)
Lemma eval_leaf depth l h op :
  h !! l = Some (OLazyOperation op) → __kwargs op = [] →
  Forall (plain h) (__args op) →
  eval (S depth) l h = (__func op (__args op) [], h).
Proof.
  intros Hl Hkw Hplain.
  pose proof (eval_args_no_LazyOperation (eval depth) _ _ Hplain) as Hargs.
  destruct (eval_resolved depth l h op _ h Hl Hargs) as [_ ->].
  rewrite Hkw. f_equal. apply alter_id.
  intros o Ho. rewrite Hl in Ho. injection Ho as <-. by destruct op.
Qed.

Lemma mapM_result_cons {A B} (f : A → result B) (x : A) (l : list A) :
  mapM f (x :: l) =
  match f x with
  | Ok y => match mapM f l with
            | Ok k => Ok (y :: k)
            | Raise e => Raise e
            end
  | Raise e => Raise e
  end.
Proof. reflexivity. Qed.

Lemma eval_args_leaves depth args h :
  Forall (leaf h) args →
  eval_args (eval (S depth)) args h = (mapM (leaf_value h) args, h).
Proof.
  induction 1 as [|arg rest Harg _ IH]; [done|].
  rewrite eval_args_cons, mapM_result_cons. unfold leaf_value at 1.
  destruct (isinstance_LazyOperation h arg) as [l|] eqn:Hinst.
  - destruct (Harg l Hinst) as (op & Hl & Hkw & Hplain).
    rewrite (eval_leaf depth l h op Hl Hkw Hplain), Hl.
    destruct (__func op (__args op) []) as [v|e]; [|done].
    rewrite IH. by destruct (mapM (leaf_value h) rest).
  - rewrite IH. by destruct (mapM (leaf_value h) rest).
Qed.

(** X18. One level of nesting composes as expected for a node without
    keyword arguments whose positional arguments are plain values or
    nodes with plain arguments only: [eval] applies the function to the
    arguments, each nested node replaced by its own function applied to
    its own arguments, from left to right; the first nested node that
    raises makes [eval] raise the same exception and leaves the store as
    it is. *)
Theorem eval_one_level depth self h op :
  h !! self = Some (OLazyOperation op) → __kwargs op = [] →
  Forall (leaf h) (__args op) →
  eval (S (S depth)) self h =
    match mapM (leaf_value h) (__args op) with
    | Ok arg_list =>
        (__func op arg_list [],
         <[self := OLazyOperation (mkLazyOperation (__func op) arg_list [])]> h)
    | Raise e => (Raise e, h)
    end.
Proof.
  intros Hself Hkw Hleaves.
  pose proof (eval_args_leaves depth (__args op) h Hleaves) as Hargs.
  destruct (mapM (leaf_value h) (__args op)) as [arg_list|e].
  - destruct (eval_resolved (S depth) self h op arg_list h Hself Hargs) as [_ ->].
    rewrite Hkw. f_equal. apply map_eq. intros l.
    destruct (decide (self = l)) as [<- | Hne].
    + rewrite lookup_alter_eq, lookup_insert_eq, Hself. simpl.
      unfold set_args. by rewrite Hkw.
    + by rewrite lookup_alter_ne, lookup_insert_ne.
  - by rewrite eval_S, Hself, Hargs.
Qed.

Lemma eval_one_level_witness :
  let seven := mkLazyOperation (λ _ _, Ok (VNum 7)) [] [] in
  let first : callable := λ args _, match args with v :: _ => Ok v | [] => Ok VNone end in
  let outer := mkLazyOperation first [VRef 1; VNum 2] [] in
  let h : heap :=
    <[0 := OLazyOperation outer]> {[ 1 := OLazyOperation seven ]} in
  eval 2 0 h =
    (Ok (VNum 7),
     <[0 := OLazyOperation (mkLazyOperation first [VNum 7; VNum 2] [])]> h).
Proof.
  intros seven first outer h.
  apply (eval_one_level 0 0 h outer); [reflexivity | reflexivity |].
  repeat constructor.
  - intros l [= <-]. exists seven. repeat split. constructor.
  - intros l Hl. discriminate.
Defined.

End one_level.

(** * Iteration *)

Section iteration.
Implicit Types (self : TimeSeries) (a : list Q) (i k n : nat).

Lemma take_steps_S {S A} (next : S → step A * S) n (s : S) :
  take_steps next (Datatypes.S n) s =
  match next s with
  | (Yield x, s') => (x :: (take_steps next n s').1, (take_steps next n s').2)
  | (StopIteration, s') => ([], s')
  end.
Proof.
  simpl. destruct (next s) as [[x|] s']; [|done].
  by destruct (take_steps next n s').
Qed.

(** [k] steps over an array that is long enough yield its next [k]
    elements. *)
Lemma take_steps_array a k i :
  i + k ≤ length a →
  take_steps (array_next a) k i = (take k (drop i a), i + k).
Proof.
  revert i. induction k as [|k IH]; intros i Hlen.
  { simpl. by rewrite Nat.add_0_r. }
  rewrite take_steps_S. unfold array_next at 1.
  destruct (lookup_lt_is_Some_2 a i) as [x Hx]; [lia|].
  rewrite Hx, IH by lia. simpl.
  rewrite (drop_S a x i Hx). simpl. f_equal. lia.
Qed.

(** Draining an array yields what is left of it. *)
Lemma drain_array a n i :
  length a ≤ i + n → drain (array_next a) n i = drop i a.
Proof.
  unfold drain. revert i. induction n as [|n IH]; intros i Hlen.
  { simpl. symmetry. apply drop_ge. lia. }
  rewrite take_steps_S. unfold array_next at 1.
  destruct (a !! i) as [x|] eqn:Hx; simpl.
  - rewrite IH by lia. by rewrite (drop_S a x i Hx).
  - symmetry. apply drop_ge. by apply lookup_ge_None.
Qed.

(** Once [iteritems] has started it iterates over the list it built, and
    the container is not read any more. *)
Lemma take_steps_items_started self (snapshot : list (Q * Q)) k i :
  i + k ≤ length snapshot →
  take_steps (iteritems_next self) k (Some (snapshot, i)) =
    (take k (drop i snapshot), Some (snapshot, i + k)).
Proof.
  revert i. induction k as [|k IH]; intros i Hlen.
  { simpl. by rewrite Nat.add_0_r. }
  rewrite take_steps_S. unfold iteritems_next at 1.
  destruct (lookup_lt_is_Some_2 snapshot i) as [x Hx]; [lia|].
  rewrite Hx, IH by lia. simpl.
  rewrite (drop_S snapshot x i Hx). simpl. do 3 f_equal. lia.
Qed.

Lemma drain_items_started self (snapshot : list (Q * Q)) n i :
  length snapshot ≤ i + n →
  drain (iteritems_next self) n (Some (snapshot, i)) = drop i snapshot.
Proof.
  unfold drain. revert i. induction n as [|n IH]; intros i Hlen.
  { simpl. symmetry. apply drop_ge. lia. }
  rewrite take_steps_S. unfold iteritems_next at 1.
  destruct (snapshot !! i) as [x|] eqn:Hx; simpl.
  - rewrite IH by lia. by rewrite (drop_S snapshot x i Hx).
  - symmetry. apply drop_ge. by apply lookup_ge_None.
Qed.

Lemma drain_items self n :
  length (items self) ≤ n → drain (iteritems_next self) n None = items self.
Proof.
  intros Hlen. destruct n as [|n].
  { unfold drain. simpl. symmetry. apply length_zero_iff_nil. lia. }
  unfold drain. rewrite take_steps_S. unfold iteritems_next at 1.
  destruct (items self !! 0) as [x|] eqn:Hx; simpl.
  - fold (drain (iteritems_next self) n (Some (items self, 1))).
    rewrite drain_items_started by lia.
    by rewrite <- (drop_S (items self) x 0 Hx).
  - apply lookup_ge_None in Hx. symmetry. apply length_zero_iff_nil. lia.
Qed.

Lemma take_steps_items self k :
  1 ≤ k → k ≤ length (items self) →
  take_steps (iteritems_next self) k None =
    (take k (items self), Some (items self, k)).
Proof.
  intros Hk1 Hk. destruct k as [|k]; [lia|].
  destruct (lookup_lt_is_Some_2 (items self) 0) as [x Hx]; [lia|].
  assert (Hnext : iteritems_next self None = (Yield x, Some (items self, 1)))
    by (unfold iteritems_next; by rewrite Hx).
  rewrite take_steps_S, Hnext, take_steps_items_started by lia.
  cbn [fst snd].
  change (x :: take k (drop 1 (items self)))
    with (take (S k) (x :: drop 1 (items self))).
  by rewrite <- (drop_S (items self) x 0 Hx), drop_0.
Qed.

Lemma items_length self : wf self → length (items self) = __len__ self.
Proof.
  intros Hwf. unfold items, __len__. rewrite length_zip_with.
  unfold wf in Hwf. lia.
Qed.

(** X19. Running each of the four generators to the end, on a container
    that is not written meanwhile, yields the values, the values, the
    times and the items of the container, in storage order; the next
    step of a generator that has yielded them all is [StopIteration]. *)
Theorem generators_yield_views self n :
  wf self → __len__ self ≤ n →
  drain (__iter___next self) n 0 = _values self ∧
  drain (itervalues_next self) n 0 = _values self ∧
  drain (itertimes_next self) n 0 = _times self ∧
  drain (iteritems_next self) n None = items self ∧
  itervalues_next self (__len__ self) = (StopIteration, __len__ self) ∧
  itertimes_next self (__len__ self) = (StopIteration, __len__ self) ∧
  iteritems_next self (Some (items self, __len__ self)) =
    (StopIteration, Some (items self, __len__ self)).
Proof.
  intros Hwf Hn. unfold __iter___next, itervalues_next, itertimes_next.
  pose proof Hwf as Hlen. unfold wf in Hlen. unfold __len__ in *.
  rewrite !drain_array by lia.
  rewrite drain_items by (rewrite items_length; [unfold __len__; lia | done]).
  repeat split.
  - unfold array_next. by rewrite (proj2 (lookup_ge_None _ _)) by lia.
  - unfold array_next. by rewrite (proj2 (lookup_ge_None _ _)) by lia.
  - unfold iteritems_next. rewrite (proj2 (lookup_ge_None _ _)); [done|].
    rewrite items_length by done. unfold __len__. lia.
Qed.

Lemma generators_yield_views_witness :
  drain (iteritems_next (mkTimeSeries [0; 5; 10]%Q [1; 2; 3]%Q int64)) 3 None =
  items (mkTimeSeries [0; 5; 10]%Q [1; 2; 3]%Q int64).
Proof.
  apply (generators_yield_views (mkTimeSeries [0; 5; 10]%Q [1; 2; 3]%Q int64) 3);
    [reflexivity | unfold __len__; simpl; lia].
Defined.

(** X20. A [Set] between two steps of a generator. [itervalues] reads
    the array at every step: after [k] steps it goes on with the values
    as written. [iteritems] builds its list at the first step: once
    started it goes on with the items as they were, and a generator that
    was created but not started before the [Set] yields the items as
    written. *)
Theorem generators_and_setitem self time value k n :
  wf self → 1 ≤ k → k ≤ __len__ self → __len__ self ≤ k + n →
  (take_steps (itervalues_next self) k 0).1 ++
    drain (itervalues_next (__setitem__ self time value).2) n
      (take_steps (itervalues_next self) k 0).2
  = take k (_values self) ++ drop k (_values (__setitem__ self time value).2) ∧
  (take_steps (iteritems_next self) k None).1 ++
    drain (iteritems_next (__setitem__ self time value).2) n
      (take_steps (iteritems_next self) k None).2
  = items self ∧
  drain (iteritems_next (__setitem__ self time value).2) (k + n) None
  = items (__setitem__ self time value).2.
Proof.
  intros Hwf Hk1 Hk Hn. pose proof Hwf as Hlen. unfold wf in Hlen.
  unfold __len__ in *.
  assert (Hwf' : wf (__setitem__ self time value).2).
  { unfold wf. by rewrite setitem_times, setitem_values_length. }
  split; [|split].
  - unfold itervalues_next. rewrite take_steps_array by lia. simpl.
    rewrite drain_array by (rewrite setitem_values_length; lia).
    by rewrite drop_0.
  - assert (Hitems : length (items self) = length (_times self))
      by (by rewrite items_length).
    rewrite take_steps_items by lia. cbn [fst snd].
    rewrite drain_items_started by lia. apply take_drop.
  - apply drain_items. rewrite items_length by done.
    unfold __len__. rewrite setitem_times. lia.
Qed.

Lemma generators_and_setitem_witness :
  let self := mkTimeSeries [0; 5; 10]%Q [1; 2; 3]%Q int64 in
  (take_steps (itervalues_next self) 1 0).1 ++
    drain (itervalues_next (__setitem__ self 10 9).2) 2
      (take_steps (itervalues_next self) 1 0).2
  = take 1 (_values self) ++ drop 1 (_values (__setitem__ self 10 9).2) ∧
  (take_steps (iteritems_next self) 1 None).1 ++
    drain (iteritems_next (__setitem__ self 10 9).2) 2
      (take_steps (iteritems_next self) 1 None).2
  = items self ∧
  drain (iteritems_next (__setitem__ self 10 9).2) (1 + 2) None
  = items (__setitem__ self 10 9).2.
Proof.
  apply (generators_and_setitem (mkTimeSeries [0; 5; 10]%Q [1; 2; 3]%Q int64) 10 9 1 2);
    [reflexivity | lia | unfold __len__; simpl; lia | unfold __len__; simpl; lia].
Defined.

End iteration.
